(** * goantor/requests: the parameter encoder and the request pipeline

    A shallow embedding of [Request.go]: the encoder [queryParams] and
    the functions that build and dispatch a request.  Go strings are byte
    strings and are modelled by [string] (a list of 8-bit [ascii]); the
    maps of the standard library ([url.Values], [http.Header]) are
    [gmap]s; a parameter map [x.H] is the list of its entries in the
    order in which one [range] loop visits them, since that order shows
    in the output.

    Of the standard library, [url.Values], [QueryEscape], [QueryUnescape]
    and [ParseQuery] are written out.  [fmt.Sprintf] on a key format,
    [json.Marshal] and the validation done by [http.NewRequest] are
    variables of the sections below, so every property holds whatever
    they compute; the examples instantiate them.  A dispatched request is
    described by the client and the request handed to [Do].  The
    functions that read a response ([takeResponse], [PostForm],
    [PostJson], [FastGet]) run against a network given as a variable and
    log their calls to [Do], [io.ReadAll] and [Close] in order. *)

From Stdlib Require Import ZArith NArith Ascii String DecimalString.
From Stdlib Require DecimalPos.
From stdpp Require Import gmap strings list sorting.

Local Open Scope string_scope.

(** ** Bytes *)

Definition byte_val (c : ascii) : N := N_of_ascii c.

Definition byte_between (lo hi c : ascii) : bool :=
  ((byte_val lo <=? byte_val c) && (byte_val c <=? byte_val hi))%N.

(** ** net/url: escaping of a query component *)

Module url.

(** [shouldEscape(c, encodeQueryComponent)]: letters, digits and the four
    marks are kept, every other byte (the reserved ones included) is
    escaped. *)
Definition shouldEscape (c : ascii) : bool :=
  if byte_between "a" "z" c || byte_between "A" "Z" c || byte_between "0" "9" c
  then false
  else match c with
       | "-"%char | "_"%char | "."%char | "~"%char => false
       | _ => true
       end.

Definition upperhex (n : N) : ascii :=
  match String.get (N.to_nat n) "0123456789ABCDEF" with
  | Some c => c
  | None => "0"%char
  end.

(** [QueryEscape(s)] = [escape(s, encodeQueryComponent)].  The Go code
    counts first and returns [s] itself when nothing needs escaping; the
    second pass below yields the same string in that case. *)
Fixpoint QueryEscape (s : string) : string :=
  match s with
  | EmptyString => EmptyString
  | String c s' =>
      if shouldEscape c then
        if Ascii.eqb c " " then String "+" (QueryEscape s')
        else String "%" (String (upperhex (N.shiftr (byte_val c) 4))
                          (String (upperhex (N.land (byte_val c) 15))
                             (QueryEscape s')))
      else String c (QueryEscape s')
  end.

Definition ishex (c : ascii) : bool :=
  byte_between "0" "9" c || byte_between "a" "f" c || byte_between "A" "F" c.

Definition unhex (c : ascii) : N :=
  if byte_between "0" "9" c then (byte_val c - byte_val "0")%N
  else if byte_between "a" "f" c then (byte_val c - byte_val "a" + 10)%N
  else if byte_between "A" "F" c then (byte_val c - byte_val "A" + 10)%N
  else 0%N.

(** [url.EscapeError]: the offending text, at most three bytes. *)
Inductive error :=
| EscapeError (s : string)
| SemicolonError.

(** [QueryUnescape(s)] = [unescape(s, encodeQueryComponent)].  Go checks
    every [%] first and decodes afterwards; the error is that of the
    leftmost malformed escape in both formulations. *)
Fixpoint QueryUnescape (s : string) : string + error :=
  match s with
  | EmptyString => inl EmptyString
  | String c rest =>
      if Ascii.eqb c "%" then
        match rest with
        | String h1 (String h2 rest') =>
            if ishex h1 && ishex h2 then
              match QueryUnescape rest' with
              | inl t =>
                  inl (String (ascii_of_N (N.lor (N.shiftl (unhex h1) 4) (unhex h2))) t)
              | inr e => inr e
              end
            else inr (EscapeError (substring 0 3 s))
        | _ => inr (EscapeError (substring 0 3 s))
        end
      else
        match QueryUnescape rest with
        | inl t => inl (String (if Ascii.eqb c "+" then " "%char else c) t)
        | inr e => inr e
        end
  end.

(** [url.Values] is [map[string][]string]. *)
Abbreviation Values := (gmap string (list string)).

(** [v.Add(key, value)]: [v[key] = append(v[key], value)]. *)
Definition Add (key value : string) (v : Values) : Values :=
  <[key := (default [] (v !! key) ++ [value])%list]> v.

(** The keys of [v] in increasing byte order ([slices.Sorted(maps.Keys(v))]). *)
Definition sorted_keys (v : Values) : list string :=
  merge_sort String.le (map_to_list v).*1.

(** One step of the inner loop of [Encode]: the separator is written
    when the buffer is not empty. *)
Definition write_pair (keyEscaped : string) (buf val : string) : string :=
  (if (0 <? String.length buf)%nat then buf +:+ "&" else buf)
    +:+ keyEscaped +:+ "=" +:+ QueryEscape val.

(** [v.Encode()]. *)
Definition Encode (v : Values) : string :=
  foldl (fun buf k => foldl (write_pair (QueryEscape k)) buf (default [] (v !! k)))
        "" (sorted_keys v).

(** [strings.Cut(s, sep)] for a one-byte separator: the text before the
    first [sep], the text after it, and whether [sep] was found. *)
Fixpoint Cut (sep : ascii) (s : string) : string * string * bool :=
  match s with
  | EmptyString => (EmptyString, EmptyString, false)
  | String c s' =>
      if Ascii.eqb c sep then (EmptyString, s', true)
      else let '(b, a, f) := Cut sep s' in (String c b, a, f)
  end.

(** [strings.Contains(s, substr)] for a one-byte [substr]. *)
Fixpoint ContainsByte (c : ascii) (s : string) : bool :=
  match s with
  | EmptyString => false
  | String d s' => Ascii.eqb d c || ContainsByte c s'
  end.

(** The text [QueryEscape] writes for one byte. *)
Definition escape_byte (c : ascii) : string := QueryEscape (String c EmptyString).

(** A byte that separates the parts of a query. *)
Definition separator (x : ascii) : bool :=
  Ascii.eqb x "&" || Ascii.eqb x "=" || Ascii.eqb x ";".

(** The text [Encode] writes for one key and value. *)
Definition pair_text (p : string * string) : string :=
  QueryEscape p.1 +:+ "=" +:+ QueryEscape p.2.

(** The pairs [Encode] writes, in the order in which it writes them. *)
Definition pairs (v : Values) : list (string * string) :=
  flat_map (fun k => map (pair k) (default [] (v !! k))) (sorted_keys v).

(** Pairs, each one after a separator. *)
Definition tail_text (L : list (string * string)) : string :=
  foldr (fun p t => "&" +:+ pair_text p +:+ t) "" L.

(** Pairs with a separator between neighbours. *)
Definition pairs_text (L : list (string * string)) : string :=
  match L with
  | [] => ""
  | p :: L' => pair_text p +:+ tail_text L'
  end.

(** No key of a collector filled by [Add] has an empty list. *)
Definition Values_wf (v : Values) : Prop :=
  forall k l, v !! k = Some l -> l <> [].

(** The loop of [parseQuery(m, query)]; [fuel] bounds the number of
    iterations, and [String.length query] of them always suffice since
    every iteration shortens [query]. *)
Fixpoint parseQuery (fuel : nat) (m : Values) (err : option error) (query : string)
  : Values * option error :=
  match fuel with
  | O => (m, err)
  | S fuel' =>
      if (String.length query =? 0)%nat then (m, err)
      else
        let '(key, query', _) := Cut "&" query in
        if ContainsByte ";" key then parseQuery fuel' m (Some SemicolonError) query'
        else if (String.length key =? 0)%nat then parseQuery fuel' m err query'
        else
          let '(key, value, _) := Cut "=" key in
          match QueryUnescape key with
          | inr err1 =>
              parseQuery fuel' m (if err is None then Some err1 else err) query'
          | inl key =>
              match QueryUnescape value with
              | inr err1 =>
                  parseQuery fuel' m (if err is None then Some err1 else err) query'
              | inl value => parseQuery fuel' (Add key value m) err query'
              end
          end
  end.

(** [ParseQuery(query)]: the values and the first error met. *)
Definition ParseQuery (query : string) : Values * option error :=
  parseQuery (String.length query) ∅ None query.

End url.

(** [strings.Contains(s, substr)]. *)
Fixpoint Contains (s substr : string) : bool :=
  match s with
  | EmptyString => String.prefix substr EmptyString
  | String _ s' => String.prefix substr s || Contains s' substr
  end.

(** ** Parameter values *)

Set Warnings "-register-all".

(** The integer types listed in the type switch of [queryParams]. *)
Inductive int_type :=
| Int64 | Int32 | Int16 | Int8 | Int | Uint64 | Uint32 | Uint16 | Uint8 | Uint.

(** Dynamic types the switch has no case for: some frequent ones, and
    any other by its name. *)
Inductive other_value :=
| Float64 (bits : Z)
| Bool (b : bool)
| Chan
| Nil
| OtherType (name : string).

(** A value stored in an [x.H] ([map[string]interface{}]), by dynamic
    type.  [VMap] is the dynamic type [map[string]interface{}]. *)
Inductive value :=
| VString (s : string)
| VBytes (b : string)
| VMap (m : list (string * value))
| VInt (t : int_type) (n : Z)
| VOther (o : other_value).

(** The entries of a map in the order of one iteration over it. *)
Abbreviation H := (list (string * value)).

(** Induction on values that reaches the values inside nested maps. *)
Section value_nested_ind.

Variable P : value -> Prop.
Hypothesis HString : forall s, P (VString s).
Hypothesis HBytes : forall b, P (VBytes b).
Hypothesis HMap : forall m, Forall (fun e => P e.2) m -> P (VMap m).
Hypothesis HInt : forall t n, P (VInt t n).
Hypothesis HOther : forall o, P (VOther o).

Fixpoint value_nested_ind (v : value) : P v :=
  match v with
  | VString s => HString s
  | VBytes b => HBytes b
  | VMap m =>
      HMap m ((fix entries_ind (l : H) : Forall (fun e => P e.2) l :=
                 match l with
                 | [] => List.Forall_nil _
                 | (k, v') :: l' =>
                     List.Forall_cons _ (k, v') l' (value_nested_ind v') (entries_ind l')
                 end) m)
  | VInt t n => HInt t n
  | VOther o => HOther o
  end.

End value_nested_ind.

(** [fmt.Sprintf("%d", v)] for an integer [v]. *)
Definition decimal (n : Z) : string := NilZero.string_of_int (Z.to_int n).

Section Encoder.

(** [fmt.Sprintf(format, k)] with the single string operand [k]. *)
Variable Sprintf : string -> string -> string.

(** The key under which an entry is written. *)
Definition effective_key (format k : string) : string :=
  if (String.length format =? 0)%nat then k else Sprintf format k.

(** The state of the loop: the collector [values] and the text [ret]. *)
Definition enc_state : Type := url.Values * string.

Definition finish (st : enc_state) : string := st.2 +:+ url.Encode st.1.

(** The type switch on one entry whose effective key is [nk]; the map
    case runs the loop of the recursive call. *)
Fixpoint switch_value (nk : string) (v : value) (st : enc_state) {struct v} : enc_state :=
  match v with
  | VString s => (url.Add nk s st.1, st.2)
  | VBytes b => (url.Add nk b st.1, st.2)
  | VMap m =>
      let inner :=
        (fix range (l : H) (format : string) (st' : enc_state) {struct l} : enc_state :=
           match l with
           | [] => st'
           | (k, v') :: l' =>
               range l' format (switch_value (effective_key format k) v' st')
           end) m (nk +:+ "[%s]") (∅, "") in
      (st.1, (st.2 +:+ finish inner) +:+ "&")
  | VInt _ n => (url.Add nk (decimal n) st.1, st.2)
  | VOther _ => st
  end.

(** [for k, v := range params { ... }] *)
Fixpoint range_params (params : H) (format : string) (st : enc_state) : enc_state :=
  match params with
  | [] => st
  | (k, v) :: params' =>
      range_params params' format (switch_value (effective_key format k) v st)
  end.

Definition queryParams (params : H) (format : string) : string :=
  finish (range_params params format (∅, "")).

(** *** The output as the specification describes it *)

(** The key and text an entry adds to the collector, if it adds any. *)
Definition simple_pair (format : string) (e : string * value) : option (string * string) :=
  match e.2 with
  | VString s => Some (effective_key format e.1, s)
  | VBytes b => Some (effective_key format e.1, b)
  | VInt _ n => Some (effective_key format e.1, decimal n)
  | VMap _ | VOther _ => None
  end.

(** The text an entry appends to the result, if it appends any: the
    encoding of a nested map followed by the separator. *)
Definition nested_fragment (format : string) (e : string * value) : option string :=
  match e.2 with
  | VMap m => Some (queryParams m (effective_key format e.1 +:+ "[%s]") +:+ "&")
  | _ => None
  end.

Definition add_pair (vs : url.Values) (p : string * string) : url.Values :=
  url.Add p.1 p.2 vs.

Definition simple_values (params : H) (format : string) : url.Values :=
  foldl add_pair ∅ (omap (simple_pair format) params).

Definition nested_fragments (params : H) (format : string) : string :=
  foldr String.append "" (omap (nested_fragment format) params).

(** Values the switch has a case for. *)
Definition supported (v : value) : bool :=
  match v with
  | VOther _ => false
  | _ => true
  end.

(** The map without the entries the switch has no case for, at every
    depth. *)
Fixpoint prune_value (v : value) : value :=
  match v with
  | VMap m =>
      VMap ((fix prune (l : H) : H :=
               match l with
               | [] => []
               | (k, v') :: l' =>
                   if supported v' then (k, prune_value v') :: prune l' else prune l'
               end) m)
  | _ => v
  end.

Fixpoint prune (params : H) : H :=
  match params with
  | [] => []
  | (k, v) :: params' =>
      if supported v then (k, prune_value v) :: prune params' else prune params'
  end.

End Encoder.

(** ** net/http: what the package uses of it *)

(** A Go [error] value, by its message. *)
Inductive error := Error (msg : string).

Module http.

(** [http.Header] is [map[string][]string]. *)
Abbreviation Header := (gmap string (list string)).

(** [h.Set(key, value)] for a key already in canonical form, as
    ["Content-Type"] is: [h[key] = []string{value}]. *)
Definition Header_Set (key value : string) (h : Header) : Header :=
  <[key := [value]]> h.

(** The fields of [*http.Request] the package determines.  A [nil]
    header is [None]. *)
Record Request := {
  Method : string;
  URL : string;
  Body : string;
  Header_ : option Header
}.

(** Durations are nanoseconds, as [time.Duration] is. *)
Definition Second : Z := 1000000000.

Record Transport := {
  MaxIdleConns : Z;
  MaxIdleConnsPerHost : Z;
  IdleConnTimeout : Z;
  MaxConnsPerHost : Z;
  DialTimeout : Z;
  DialKeepAlive : Z;
  TLSHandshakeTimeout : Z;
  DisableKeepAlives : bool;
  ResponseHeaderTimeout : Z;
  ExpectContinueTimeout : Z;
  MaxResponseHeaderBytes : Z
}.

Record Client := {
  Transport_ : Transport;
  Timeout : Z
}.

End http.

Definition ContentType := string.
Definition MethodType := string.

Definition GetMethod : MethodType := "GET".
Definition PostMethod : MethodType := "POST".
Definition FormType : ContentType := "application/x-www-form-urlencoded".
Definition JsonType : ContentType := "application/json".

Definition transport : http.Transport := {|
  http.MaxIdleConns := 5000;
  http.MaxIdleConnsPerHost := 1000;
  http.IdleConnTimeout := 90 * http.Second;
  http.MaxConnsPerHost := 200;
  http.DialTimeout := 30 * http.Second;
  http.DialKeepAlive := 30 * http.Second;
  http.TLSHandshakeTimeout := 10 * http.Second;
  http.DisableKeepAlives := false;
  http.ResponseHeaderTimeout := 5 * http.Second;
  http.ExpectContinueTimeout := 1 * http.Second;
  http.MaxResponseHeaderBytes := Z.shiftl 10 20
|}.

Definition clientPool : http.Client := {|
  http.Transport_ := transport;
  http.Timeout := 30 * http.Second
|}.

(** The package's [Request].  [Params] and [Header] may be [nil]. *)
Record Request := {
  Method : MethodType;
  ContentType_ : ContentType;
  Url : string;
  Params : option H;
  Header : option http.Header;
  Timeout : Z
}.

(** What a call hands back: an error of its own, or whatever
    [c.Do(req)] returns for the client and request shown. *)
Inductive result :=
| Err (e : error)
| Do (c : http.Client) (req : http.Request).

(** Ranging over a [nil] map visits nothing. *)
Definition entries (params : option H) : H := default [] params.

Section Requests.

Variable Sprintf : string -> string -> string.

(** [json.Marshal(params)]: the bytes, or the error (the slice returned
    with an error is [nil]). *)
Variable Marshal : option H -> string + error.

(** The check [http.NewRequest] makes of the method and the URL. *)
Variable NewRequest_check : string -> string -> option error.

(** [http.NewRequest(method, url, body)], with the body given by its
    bytes and the URL by its text; an empty method stands for GET, and
    the new request has an empty header map. *)
Definition http_NewRequest (method url body : string) : error + http.Request :=
  let method := if String.eqb method "" then "GET" else method in
  match NewRequest_check method url with
  | Some e => inl e
  | None => inr {| http.Method := method; http.URL := url;
                   http.Body := body; http.Header_ := Some ∅ |}
  end.

(** [fmt.Sprintf("%s?%s", url, queryString)] *)
Definition getRequestURL (url : string) (params : option H) : string :=
  let queryString := queryParams Sprintf (entries params) "" in
  url +:+ "?" +:+ queryString.

Definition NewRequest (method : MethodType) (contentType : ContentType) (url : string)
    (params : option H) (header : option http.Header) (timeout : Z) : Request :=
  let '(url, params) :=
    if String.eqb method GetMethod then (getRequestURL url params, None)
    else (url, params) in
  {| Method := method; ContentType_ := contentType; Url := url;
     Params := params; Header := header; Timeout := timeout |}.

(** The bytes the returned reader yields. *)
Definition getData (typ : ContentType) (params : option H) : string :=
  if String.eqb typ JsonType then
    match Marshal params with
    | inl js => js
    | inr _ => ""
    end
  else queryParams Sprintf (entries params) "".

Definition makeRequest (method : MethodType) (typ : ContentType) (url : string)
    (params : option H) : error + http.Request :=
  http_NewRequest method url (getData typ params).

Definition do (method : MethodType) (contentType : ContentType) (url : string)
    (params : option H) (header : option http.Header) (duration : Z) : result :=
  match makeRequest method contentType url params with
  | inl err => Err err
  | inr req =>
      let req := {| http.Method := http.Method req; http.URL := http.URL req;
                    http.Body := http.Body req; http.Header_ := header |} in
      Do clientPool req
  end.

Definition DoRequest (req : Request) : result :=
  do (Method req) (ContentType_ req) (Url req) (Params req) (Header req) (Timeout req).

(** [clientPool.Get(url)]: [http.NewRequest("GET", url, nil)], then [Do]. *)
Definition Get (url : string) (params : option H) : result :=
  match http_NewRequest "GET" (getRequestURL url params) "" with
  | inl err => Err err
  | inr req => Do clientPool req
  end.

Definition Form (url : string) (params : option H) (header : option http.Header)
    (duration : Z) : result :=
  let header := match header with None => ∅ | Some h => h end in
  let header := http.Header_Set "Content-Type" FormType header in
  do PostMethod FormType url params (Some header) duration.

Definition Json (url : string) (params : option H) (header : option http.Header)
    (duration : Z) : result :=
  let header := match header with None => ∅ | Some h => h end in
  let header := http.Header_Set "Content-Type" "application/json;charset=utf-8" header in
  do PostMethod JsonType url params (Some header) duration.

Definition Auto (method : MethodType) (contentType : ContentType) (url : string)
    (params : option H) (header : option http.Header) (duration : Z) : result :=
  if String.eqb method GetMethod then Get url params
  else if String.eqb contentType FormType then Form url params header duration
  else Json url params header duration.

End Requests.

(** ** Notions the properties are stated with *)

(** The double quote, as a string. *)
Definition dquote : string := String "034" EmptyString.

(** The map [{"a": {"b": "1"}}]. *)
Definition nested_example : H := [("a", VMap [("b", VString "1")])].

(** Values that are strings or integers. *)
Definition flat_leaf (v : value) : bool :=
  match v with
  | VString _ | VInt _ _ => true
  | _ => false
  end.

(** The text a simple value is written as, before escaping. *)
Definition string_of_value (v : value) : string :=
  match v with
  | VString s => s
  | VBytes b => b
  | VInt _ n => decimal n
  | _ => ""
  end.

(** The mapping from each key to the text of its value, as
    [url.Values] holding one text per key. *)
Definition text_mapping (params : H) : url.Values :=
  list_to_map ((fun e => (e.1, [string_of_value e.2])) <$> params).

(** The text [{"n":3}]. *)
Definition json_n3 : string := "{" +:+ dquote +:+ "n" +:+ dquote +:+ ":3}".

(** A caller's header map with an entry of its own and a content type. *)
Definition example_header : http.Header :=
  <["X-Trace" := ["7"]]> {["Content-Type" := ["text/plain"]]}.

(** A flat map of strings and integers. *)
Definition flat_example : H :=
  [("name", VString "a b&c=d"); ("n", VInt Int64 (-7)); ("", VString "");
   ("k[]", VInt Uint8 255)].

(** A map with simple and nested entries, visited in two orders. *)
Definition mixed_example : H :=
  [("z", VString "1"); ("a", VMap [("b", VString "1")]); ("b", VInt Int 2)].

(** A map with two nested maps and nothing else. *)
Definition nested_only_example : H :=
  [("a", VMap [("b", VString "1")]); ("c", VMap [])].

(** *** Decimal texts, read independently of [decimal] *)

Definition is_digit (c : ascii) : bool := byte_between "0" "9" c.

Definition digit_value (c : ascii) : Z := Z.of_N (byte_val c - byte_val "0").

(** The number a string of digits denotes after the digits already read
    gave [acc]; [None] when a byte is not a digit. *)
Fixpoint read_digits (acc : Z) (s : string) : option Z :=
  match s with
  | EmptyString => Some acc
  | String c s' =>
      if is_digit c then read_digits (10 * acc + digit_value c) s' else None
  end.

(** The integer a decimal text denotes: digits, after an optional
    minus sign; at least one digit. *)
Definition read_decimal (s : string) : option Z :=
  match s with
  | EmptyString => None
  | String c s' =>
      if Ascii.eqb c "-" then
        match s' with
        | EmptyString => None
        | _ => option_map Z.opp (read_digits 0 s')
        end
      else read_digits 0 s
  end.

Fixpoint digits_only (s : string) : bool :=
  match s with
  | EmptyString => true
  | String c s' => is_digit c && digits_only s'
  end.

(** Digits with no leading zero, or the single digit [0]. *)
Definition canonical_digits (s : string) : bool :=
  match s with
  | EmptyString => false
  | String c s' =>
      if Ascii.eqb c "0" then (String.length s' =? 0)%nat
      else is_digit c && digits_only s'
  end.

(** The one text of an integer: [0], or its digits with no leading
    zero, after a minus sign when it is negative. *)
Definition canonical_decimal (s : string) : bool :=
  match s with
  | EmptyString => false
  | String c s' =>
      if Ascii.eqb c "-" then canonical_digits s' && negb (String.eqb s' "0")
      else canonical_digits s
  end.

(** ** Instances of the library functions, for the examples *)

(** An instance of [fmt.Sprintf] for one string operand, on formats
    whose only verb is one [%s]: the operand replaces the verb. *)
Fixpoint Sprintf_s (format k : string) : string :=
  match format with
  | String "%" (String "s" rest) => k +:+ rest
  | String c rest => String c (Sprintf_s rest k)
  | EmptyString => EmptyString
  end.

(** An instance of [json.Marshal] on flat maps of integers, booleans,
    [nil] and channels with keys that need no escaping: the members in
    increasing key order, no white space; a channel is refused as an
    unsupported type, and so is, in this instance only, every value it
    does not cover. *)
Definition Marshal_scalar (v : value) : string + error :=
  match v with
  | VInt _ n => inl (decimal n)
  | VOther (Bool true) => inl "true"
  | VOther (Bool false) => inl "false"
  | VOther Nil => inl "null"
  | VOther Chan => inr (Error "json: unsupported type: chan int")
  | _ => inr (Error "not covered by this instance")
  end.

Fixpoint Marshal_members (l : list (string * value)) : list string + error :=
  match l with
  | [] => inl []
  | (k, v) :: l' =>
      match Marshal_scalar v, Marshal_members l' with
      | inl t, inl ts => inl ((dquote +:+ k +:+ dquote +:+ ":" +:+ t) :: ts)
      | inr e, _ => inr e
      | _, inr e => inr e
      end
  end.

Definition Marshal_flat (params : option H) : string + error :=
  match params with
  | None => inl "null"
  | Some l =>
      match Marshal_members (merge_sort (fun a b => String.le a.1 b.1) l) with
      | inl ts => inl ("{" +:+ String.concat "," ts +:+ "}")
      | inr e => inr e
      end
  end.

Definition url_byte (c : ascii) : bool :=
  byte_between "a" "z" c || byte_between "A" "Z" c || byte_between "0" "9" c
  || bool_decide (c ∈ ["/"; "."; "?"; "="; "&"; "-"; "_"]%char).

(** An instance of the check of [http.NewRequest]: it lets through the
    methods GET and POST with a URL [http://...] made of letters, digits
    and [/ . ? = & - _], all of which [http.NewRequest] accepts. *)
Definition NewRequest_check_plain (method url : string) : option error :=
  if (String.eqb method "GET" || String.eqb method "POST")
     && String.prefix "http://" url
     && forallb url_byte (list_ascii_of_string (substring 7 (String.length url) url))
  then None
  else Some (Error "refused by this instance").


(** ** Notions for the properties of the whole encoder *)

(** The bytes an encoded query is made of: the unreserved ones, the two
    that escaping writes, and the two separators. *)
Definition query_byte (c : ascii) : bool :=
  negb (url.shouldEscape c)
  || Ascii.eqb c "%" || Ascii.eqb c "+" || Ascii.eqb c "=" || Ascii.eqb c "&".

Fixpoint all_bytes (p : ascii -> bool) (s : string) : bool :=
  match s with
  | EmptyString => true
  | String c s' => p c && all_bytes p s'
  end.

(** How often the byte [c] occurs in [s]. *)
Fixpoint count_byte (c : ascii) (s : string) : nat :=
  match s with
  | EmptyString => 0
  | String d s' => (if Ascii.eqb d c then 1 else 0) + count_byte c s'
  end.

Section Leaves.

Variable Sprintf : string -> string -> string.

(** The keys and texts of the simple values of a map, at every depth,
    in the order in which the entries are visited. *)
Fixpoint flatten_value (nk : string) (v : value) : list (string * string) :=
  match v with
  | VString s => [(nk, s)]
  | VBytes b => [(nk, b)]
  | VMap m =>
      (fix flatten_entries (l : H) (format : string) : list (string * string) :=
         match l with
         | [] => []
         | (k, v') :: l' =>
             (flatten_value (effective_key Sprintf format k) v'
                ++ flatten_entries l' format)%list
         end) m (nk +:+ "[%s]")
  | VInt _ n => [(nk, decimal n)]
  | VOther _ => []
  end.

Fixpoint flatten (params : H) (format : string) : list (string * string) :=
  match params with
  | [] => []
  | (k, v) :: params' =>
      (flatten_value (effective_key Sprintf format k) v ++ flatten params' format)%list
  end.

End Leaves.

(** [parseQuery] run with the fuel that suffices for [query]. *)
Definition parse_from (m : url.Values) (err : option url.error) (query : string)
  : url.Values * option url.error :=
  url.parseQuery (String.length query) m err query.

(** What one iteration of [parseQuery] does with the text [key] between
    two separators. *)
Definition parse_key (m : url.Values) (err : option url.error) (key : string)
  : url.Values * option url.error :=
  if url.ContainsByte ";" key then (m, Some url.SemicolonError)
  else if (String.length key =? 0)%nat then (m, err)
  else
    let '(key, value, _) := url.Cut "=" key in
    match url.QueryUnescape key with
    | inr err1 => (m, if err is None then Some err1 else err)
    | inl key =>
        match url.QueryUnescape value with
        | inr err1 => (m, if err is None then Some err1 else err)
        | inl value => (url.Add key value m, err)
        end
    end.

(** [query] decodes to the pairs [L], added in this order, and raises
    no error, whatever was decoded before it. *)
Definition decodes_to (query : string) (L : list (string * string)) : Prop :=
  forall m err, parse_from m err query = (foldl add_pair m L, err).

(** The keys and values of a collector, key by key. *)
Definition content (v : url.Values) : list (string * string) :=
  flat_map (fun e => map (pair e.1) e.2) (map_to_list v).

(** *** Keys in bracket notation *)

(** The simple values of a map with their keys composed by brackets:
    [k] at the top, [parent[k]] below the key [parent]. *)
Fixpoint paths_value (key : string) (v : value) : list (string * string) :=
  match v with
  | VString s => [(key, s)]
  | VBytes b => [(key, b)]
  | VMap m =>
      (fix paths_entries (parent : string) (l : H) : list (string * string) :=
         match l with
         | [] => []
         | (k, v') :: l' =>
             (paths_value (parent +:+ "[" +:+ k +:+ "]") v' ++ paths_entries parent l')%list
         end) key m
  | VInt _ n => [(key, decimal n)]
  | VOther _ => []
  end.

Fixpoint paths_under (key : string) (m : H) : list (string * string) :=
  match m with
  | [] => []
  | (k, v) :: m' =>
      (paths_value (key +:+ "[" +:+ k +:+ "]") v ++ paths_under key m')%list
  end.

Fixpoint paths (params : H) : list (string * string) :=
  match params with
  | [] => []
  | (k, v) :: params' => (paths_value k v ++ paths params')%list
  end.

(** No key of a nested map, at any depth, holds a [%]: such a key
    becomes part of a format. *)
Definition plain_map_key (k : string) (v : value) : bool :=
  match v with
  | VMap _ => negb (url.ContainsByte "%" k)
  | _ => true
  end.

Fixpoint map_keys_plain_value (v : value) : bool :=
  match v with
  | VMap m =>
      (fix plain_entries (l : H) : bool :=
         match l with
         | [] => true
         | (k, v') :: l' =>
             plain_map_key k v' && map_keys_plain_value v' && plain_entries l'
         end) m
  | _ => true
  end.

Fixpoint map_keys_plain (params : H) : bool :=
  match params with
  | [] => true
  | (k, v) :: params' =>
      plain_map_key k v && map_keys_plain_value v && map_keys_plain params'
  end.

(** What [fmt.Sprintf] does with the formats the encoder builds from a
    key without [%]: the only verb is the final [%s]. *)
Definition bracket_law (Sprintf : string -> string -> string) : Prop :=
  forall nk k,
    url.ContainsByte "%" nk = false ->
    Sprintf (nk +:+ "[%s]") k = nk +:+ "[" +:+ k +:+ "]".

(** A map nested three levels deep. *)
Definition deep_example : H :=
  [("user", VMap [("name", VString "Ann Lee");
                  ("tags", VMap [("0", VString "a&b"); ("1", VInt Int 7)]);
                  ("home", VMap [("city", VBytes "Oslo")])]);
   ("50%", VString "x");
   ("skip", VOther (Float64 0))].

(** *** The same map, visited in another order *)

(** [reordered m m']: [m'] holds the entries of [m] in another order,
    the nested maps being reordered too. *)
Inductive reordered : H -> H -> Prop :=
| reordered_nil : reordered [] []
| reordered_cons k v v' m m' :
    reordered_value v v' -> reordered m m' -> reordered ((k, v) :: m) ((k, v') :: m')
| reordered_swap e1 e2 m : reordered (e1 :: e2 :: m) (e2 :: e1 :: m)
| reordered_trans m1 m2 m3 : reordered m1 m2 -> reordered m2 m3 -> reordered m1 m3
with reordered_value : value -> value -> Prop :=
| reordered_same v : reordered_value v v
| reordered_map m m' : reordered m m' -> reordered_value (VMap m) (VMap m').

(** The map of [deep_example] as another iteration may visit it. *)
Definition deep_example_reordered : H :=
  [("skip", VOther (Float64 0));
   ("50%", VString "x");
   ("user", VMap [("home", VMap [("city", VBytes "Oslo")]);
                  ("tags", VMap [("1", VInt Int 7); ("0", VString "a&b")]);
                  ("name", VString "Ann Lee")])].

(** *** Values by their text *)

(** The map with every simple value replaced by the string of its
    text, at every depth. *)
Fixpoint stringify_value (v : value) : value :=
  match v with
  | VString s => VString s
  | VBytes b => VString b
  | VMap m =>
      VMap ((fix stringify_entries (l : H) : H :=
               match l with
               | [] => []
               | (k, v') :: l' => (k, stringify_value v') :: stringify_entries l'
               end) m)
  | VInt _ n => VString (decimal n)
  | VOther o => VOther o
  end.

Fixpoint stringify (params : H) : H :=
  match params with
  | [] => []
  | (k, v) :: params' => (k, stringify_value v) :: stringify params'
  end.

(** ** Responses *)

(** What reading a response body delivers: chunks of bytes, ended by
    the end of the stream or by an error. *)
Inductive stream :=
| EOF
| Chunk (bs : string) (rest : stream)
| ReadError (e : error).

(** [io.ReadAll(r)]: the bytes read before the end or the error, and
    the error ([nil] at the end of the stream). *)
Fixpoint ReadAll (r : stream) : string * option error :=
  match r with
  | EOF => ("", None)
  | Chunk bs rest => let '(data, err) := ReadAll rest in (bs +:+ data, err)
  | ReadError e => ("", Some e)
  end.

(** The fields of [*http.Response] the package reads. *)
Record http_Response := {
  StatusCode : Z;
  Body_ : stream
}.

(** The package's [Response]. *)
Record Response := {
  Code : Z;
  Body : string
}.

(** What [c.Do(req)] returns: a response and no error, or an error,
    with which a response may still come (its body already closed). *)
Inductive do_result :=
| DoOk (resp : http_Response)
| DoErr (e : error) (resp : option http_Response).

(** The calls a function makes on the outside world, in order. *)
Inductive event :=
| EvDo (c : http.Client) (req : http.Request)
| EvReadAll
| EvClose.

(** A computation that logs its calls. *)
Definition M (A : Type) : Type := A * list event.

Definition ret {A} (a : A) : M A := (a, []).

Definition bind {A B} (m : M A) (k : A -> M B) : M B :=
  let '(a, log1) := m in
  let '(b, log2) := k a in
  (b, (log1 ++ log2)%list).

Definition log (e : event) : M unit := (tt, [e]).

Notation "'call' x <- m ;; k" := (bind m (fun x => k))
  (at level 10, x name, m at level 99, k at level 200, only parsing).

Section Responses.

(** The network: what [Do] returns for a client and a request. *)
Variable network : http.Client -> http.Request -> do_result.

(** Running what [Get], [Form] or [Json] hand back. *)
Definition perform (r : result) : M do_result :=
  match r with
  | Err e => ret (DoErr e None)
  | Do c req => call _ <- log (EvDo c req) ;; ret (network c req)
  end.

Definition io_ReadAll (r : stream) : M (string * option error) :=
  call _ <- log EvReadAll ;; ret (ReadAll r).

Definition Body_Close (r : stream) : M unit := log EvClose.

(** [takeResponse]: the named results [ret] and [err]. *)
Definition takeResponse (resp : http_Response) : M (option Response * option error) :=
  call r <- io_ReadAll (Body_ resp) ;;
  match r with
  | (bs, Some err) => ret (None, Some err)
  | (bs, None) => ret (Some {| Code := StatusCode resp; Body := bs |}, None)
  end.

Variable Sprintf : string -> string -> string.
Variable Marshal : option H -> string + error.
Variable NewRequest_check : string -> string -> option error.

(** The deferred [Close] runs after [takeResponse] has returned. *)
Definition PostForm (url : string) (data : option H) (header : option http.Header)
    (requestTimeout : Z) : M (option Response * option error) :=
  call r <- perform (Form Sprintf Marshal NewRequest_check url data header requestTimeout) ;;
  match r with
  | DoErr err _ => ret (None, Some err)
  | DoOk resp =>
      call out <- takeResponse resp ;;
      call _ <- Body_Close (Body_ resp) ;;
      ret out
  end.

Definition PostJson (url : string) (params : option H) (header : option http.Header)
    (duration : Z) : M (option Response * option error) :=
  call r <- perform (Json Sprintf Marshal NewRequest_check url params header duration) ;;
  match r with
  | DoErr err _ => ret (None, Some err)
  | DoOk resp =>
      call out <- takeResponse resp ;;
      call _ <- Body_Close (Body_ resp) ;;
      ret out
  end.

Definition FastGet (url : string) (data : option H) : M (option Response * option error) :=
  call r <- perform (Get Sprintf NewRequest_check url data) ;;
  match r with
  | DoErr err _ => ret (None, Some err)
  | DoOk resp =>
      call out <- takeResponse resp ;;
      call _ <- Body_Close (Body_ resp) ;;
      ret out
  end.

End Responses.

(** What [PostForm], [PostJson] and [FastGet] do with the outcome of
    the call they wrap. *)
Definition read_and_close (network : http.Client -> http.Request -> do_result)
    (r : result) : M (option Response * option error) :=
  call r <- perform network r ;;
  match r with
  | DoErr err _ => ret (None, Some err)
  | DoOk resp =>
      call out <- takeResponse resp ;;
      call _ <- Body_Close (Body_ resp) ;;
      ret out
  end.

Definition is_EvDo (e : event) : bool :=
  match e with
  | EvDo _ _ => true
  | _ => false
  end.

(** A stream that delivers the chunks [l] and then ends as [tail]. *)
Definition chunks (l : list string) (tail : stream) : stream :=
  foldr Chunk tail l.

(** A network that answers every request with the status 500 and a body
    in two chunks, except that it fails on the host [down]. *)
Definition network_500 (c : http.Client) (req : http.Request) : do_result :=
  if String.prefix "http://down" (http.URL req)
  then DoErr (Error "dial tcp: connection refused") None
  else DoOk {| StatusCode := 500; Body_ := chunks ["oo"; "ps"] EOF |}.

(** A network whose response bodies break after the first chunk. *)
Definition network_broken (c : http.Client) (req : http.Request) : do_result :=
  DoOk {| StatusCode := 200;
          Body_ := chunks ["par"] (ReadError (Error "unexpected EOF")) |}.

(** * Properties *)

(** ** Strings *)

Lemma append_nil_l (a : string) : "" +:+ a = a.
Proof. reflexivity. Qed.

Lemma append_cons (x : ascii) (a b : string) : String x a +:+ b = String x (a +:+ b).
Proof. reflexivity. Qed.

Lemma append_assoc (a b c : string) : (a +:+ b) +:+ c = a +:+ (b +:+ c).
Proof.
  induction a as [|x a IH]; [reflexivity|].
  now rewrite !append_cons, IH.
Qed.

Lemma append_nil_r (a : string) : a +:+ "" = a.
Proof.
  induction a as [|x a IH]; [reflexivity|].
  now rewrite append_cons, IH.
Qed.

Lemma length_append (a b : string) :
  String.length (a +:+ b) = String.length a + String.length b.
Proof.
  induction a as [|x a IH]; [reflexivity|].
  rewrite append_cons. simpl. now rewrite IH.
Qed.

Lemma omap_cons {A B} (f : A -> option B) (x : A) (l : list A) :
  omap f (x :: l)
  = match f x with
    | Some y => y :: omap f l
    | None => omap f l
    end.
Proof. reflexivity. Qed.

Lemma foldr_append_ends (fs : list string) :
  fs <> [] ->
  Forall (fun f => exists t, f = t +:+ "&") fs ->
  exists s, foldr String.append "" fs = s +:+ "&".
Proof.
  induction fs as [|f fs IH]; intros Hne Hall; [congruence|].
  apply Forall_cons in Hall as [[t ->] Hall]. simpl.
  destruct fs as [|g fs].
  - exists t. simpl. now rewrite append_nil_r.
  - destruct IH as [s Hs]; [congruence | assumption |].
    rewrite Hs. exists ((t +:+ "&") +:+ s). now rewrite !append_assoc.
Qed.

(** ** The loop of the encoder *)

Section EncoderFacts.

Variable Sprintf : string -> string -> string.

Lemma switch_value_VMap nk m st :
  switch_value Sprintf nk (VMap m) st
  = (st.1, (st.2 +:+ queryParams Sprintf m (nk +:+ "[%s]")) +:+ "&").
Proof. reflexivity. Qed.

(** One iteration either adds one pair to the collector or appends one
    fragment to the text, or does neither. *)
Lemma switch_value_split format k v st :
  switch_value Sprintf (effective_key Sprintf format k) v st
  = (foldl add_pair st.1 (option_list (simple_pair Sprintf format (k, v))),
     st.2 +:+ default "" (nested_fragment Sprintf format (k, v))).
Proof.
  destruct st as [vs ret].
  destruct v as [s|b|m|t n|o]; unfold simple_pair, nested_fragment; simpl;
    rewrite ?append_nil_r; try reflexivity.
  now rewrite append_assoc.
Qed.

Lemma range_params_split params format st :
  range_params Sprintf params format st
  = (foldl add_pair st.1 (omap (simple_pair Sprintf format) params),
     st.2 +:+ foldr String.append "" (omap (nested_fragment Sprintf format) params)).
Proof.
  revert st. induction params as [|[k v] params IH]; intros [vs ret]; simpl.
  - now rewrite append_nil_r.
  - rewrite IH, switch_value_split. simpl.
    destruct (simple_pair Sprintf format (k, v)) as [p|];
      destruct (nested_fragment Sprintf format (k, v)) as [f|]; simpl;
      rewrite ?append_nil_r, ?append_assoc; reflexivity.
Qed.

Lemma queryParams_split params format :
  queryParams Sprintf params format
  = nested_fragments Sprintf params format
      +:+ url.Encode (simple_values Sprintf params format).
Proof.
  unfold queryParams, finish. now rewrite range_params_split.
Qed.

End EncoderFacts.

(** ** Escaping and unescaping *)

Module url_facts.
Import url.

Ltac each_byte c :=
  destruct c as [[] [] [] [] [] [] [] []].

Lemma QueryEscape_cons c s :
  QueryEscape (String c s) = escape_byte c +:+ QueryEscape s.
Proof.
  unfold escape_byte. simpl.
  destruct (shouldEscape c); [destruct (Ascii.eqb c " ")|]; reflexivity.
Qed.

Lemma QueryUnescape_escape_byte c t :
  QueryUnescape (escape_byte c +:+ t)
  = match QueryUnescape t with
    | inl u => inl (String c u)
    | inr e => inr e
    end.
Proof. each_byte c; reflexivity. Qed.

Lemma QueryUnescape_QueryEscape s : QueryUnescape (QueryEscape s) = inl s.
Proof.
  induction s as [|c s IH]; [reflexivity|].
  now rewrite QueryEscape_cons, QueryUnescape_escape_byte, IH.
Qed.

Lemma Contains_append x a b :
  ContainsByte x (a +:+ b) = ContainsByte x a || ContainsByte x b.
Proof.
  induction a as [|c a IH]; [reflexivity|].
  rewrite append_cons. simpl. rewrite IH. now rewrite orb_assoc.
Qed.

Lemma Contains_escape_byte x c :
  separator x = true -> ContainsByte x (escape_byte c) = false.
Proof.
  unfold separator. intros Hx.
  assert (Hc : x = "&"%char \/ x = "="%char \/ x = ";"%char).
  { destruct (Ascii.eqb_spec x "&"); [auto|].
    destruct (Ascii.eqb_spec x "="); [auto|].
    destruct (Ascii.eqb_spec x ";"); [auto|discriminate]. }
  destruct Hc as [->|[->| ->]]; each_byte c; reflexivity.
Qed.

Lemma Contains_QueryEscape x s :
  separator x = true -> ContainsByte x (QueryEscape s) = false.
Proof.
  intros Hx. induction s as [|c s IH]; [reflexivity|].
  now rewrite QueryEscape_cons, Contains_append, Contains_escape_byte, IH.
Qed.

(** *** [Encode] writes the pairs with separators between them *)

Lemma foldl_flat_map {A B C} (f : A -> C -> B -> C) (g : A -> list B) ks b :
  foldl (fun buf k => foldl (f k) buf (g k)) b ks
  = foldl (fun buf p => f p.1 buf p.2) b (flat_map (fun k => map (pair k) (g k)) ks).
Proof.
  revert b. induction ks as [|k ks IH]; intros b; simpl; [reflexivity|].
  rewrite foldl_app, IH. f_equal.
  generalize (g k). intros l. revert b.
  induction l as [|x l IHl]; intros b; simpl; [reflexivity | apply IHl].
Qed.

Lemma pair_text_length p : 0 < String.length (pair_text p).
Proof.
  unfold pair_text. rewrite !length_append. simpl. lia.
Qed.

Lemma write_pair_empty k val :
  write_pair (QueryEscape k) "" val = pair_text (k, val).
Proof. reflexivity. Qed.

Lemma write_pair_nonempty k buf val :
  0 < String.length buf ->
  write_pair (QueryEscape k) buf val = buf +:+ "&" +:+ pair_text (k, val).
Proof.
  intros Hb. unfold write_pair.
  destruct (Nat.ltb_spec 0 (String.length buf)) as [_|]; [|lia].
  now rewrite !append_assoc.
Qed.

Lemma foldl_write_pair_nonempty L buf :
  0 < String.length buf ->
  foldl (fun buf p => write_pair (QueryEscape p.1) buf p.2) buf L
  = buf +:+ tail_text L.
Proof.
  revert buf. induction L as [|[k val] L IH]; intros buf Hb; simpl.
  - now rewrite append_nil_r.
  - rewrite write_pair_nonempty by assumption.
    rewrite IH.
    + now rewrite !append_assoc.
    + rewrite !length_append. lia.
Qed.

Lemma Encode_pairs_text v : Encode v = pairs_text (pairs v).
Proof.
  unfold Encode.
  rewrite (foldl_flat_map (fun k => write_pair (QueryEscape k))
             (fun k => default [] (v !! k))).
  fold (pairs v). destruct (pairs v) as [|[k val] L]; simpl; [reflexivity|].
  rewrite write_pair_empty. apply foldl_write_pair_nonempty, pair_text_length.
Qed.

(** *** [ParseQuery] reads them back *)

Lemma Cut_found sep a rest :
  ContainsByte sep a = false -> Cut sep (a +:+ String sep rest) = (a, rest, true).
Proof.
  induction a as [|c a IH]; intros Ha.
  - simpl. now rewrite Ascii.eqb_refl.
  - rewrite append_cons. simpl in *.
    apply orb_false_iff in Ha as [Hc Ha].
    now rewrite Hc, IH.
Qed.

Lemma Cut_missing sep a :
  ContainsByte sep a = false -> Cut sep a = (a, "", false).
Proof.
  induction a as [|c a IH]; intros Ha; [reflexivity|].
  simpl in *. apply orb_false_iff in Ha as [Hc Ha].
  now rewrite Hc, IH.
Qed.

Lemma Contains_pair_text x p :
  x = "&"%char \/ x = ";"%char -> ContainsByte x (pair_text p) = false.
Proof.
  intros Hx. unfold pair_text.
  rewrite !Contains_append, !Contains_QueryEscape by (destruct Hx as [-> | ->]; reflexivity).
  destruct Hx as [-> | ->]; reflexivity.
Qed.

Lemma Cut_pair_text p :
  Cut "=" (pair_text p) = (QueryEscape p.1, QueryEscape p.2, true).
Proof. apply Cut_found. now apply Contains_QueryEscape. Qed.

Lemma parseQuery_empty fuel m err : parseQuery fuel m err "" = (m, err).
Proof. destruct fuel; reflexivity. Qed.

(** One iteration on a query that starts with the text of a pair. *)
Lemma parseQuery_pair fuel m err p query query' found :
  Cut "&" query = (pair_text p, query', found) ->
  parseQuery (S fuel) m err query = parseQuery fuel (Add p.1 p.2 m) err query'.
Proof.
  intros HCut. simpl.
  destruct (Nat.eqb_spec (String.length query) 0) as [Hlen|_].
  - destruct query; [|discriminate].
    simpl in HCut. injection HCut as Hp _ _.
    pose proof (pair_text_length p) as Hl. rewrite <- Hp in Hl. simpl in Hl. lia.
  - rewrite HCut. rewrite Contains_pair_text by auto.
    destruct (Nat.eqb_spec (String.length (pair_text p)) 0) as [Hlen|_].
    { pose proof (pair_text_length p). lia. }
    rewrite Cut_pair_text, !QueryUnescape_QueryEscape. reflexivity.
Qed.

Lemma parseQuery_pairs L p fuel m err :
  length L < fuel ->
  parseQuery fuel m err (pair_text p +:+ tail_text L)
  = (foldl add_pair (Add p.1 p.2 m) L, err).
Proof.
  revert p fuel m. induction L as [|q L IH]; intros p fuel m Hfuel;
    (destruct fuel as [|fuel]; [simpl in Hfuel; lia|]).
  - simpl tail_text. rewrite append_nil_r.
    rewrite (parseQuery_pair _ _ _ p _ "" false).
    + apply parseQuery_empty.
    + apply Cut_missing, Contains_pair_text; auto.
  - simpl tail_text.
    rewrite (parseQuery_pair _ _ _ p _ (pair_text q +:+ tail_text L) true).
    + rewrite IH by (simpl in Hfuel; lia). reflexivity.
    + apply (Cut_found "&"), Contains_pair_text; auto.
Qed.

(** The rest of the query after a cut is shorter than the query. *)
Lemma Cut_shorter sep s :
  s <> "" -> String.length (Cut sep s).1.2 < String.length s.
Proof.
  induction s as [|c s IH]; intros Hs; [congruence|].
  simpl. destruct (Ascii.eqb c sep); simpl; [lia|].
  destruct s as [|d s]; [simpl; lia|].
  specialize (IH ltac:(discriminate)).
  destruct (Cut sep (String d s)) as [[b a] f]. simpl in *. lia.
Qed.

(** The loop ends within [String.length query] iterations: more fuel
    changes nothing. *)
Lemma parseQuery_fuel_enough n1 n2 m err query :
  String.length query <= n1 -> String.length query <= n2 ->
  parseQuery n1 m err query = parseQuery n2 m err query.
Proof.
  revert n2 m err query.
  induction n1 as [|n1 IH]; intros n2 m err query H1 H2.
  - destruct query; [|simpl in H1; lia]. now rewrite !parseQuery_empty.
  - destruct n2 as [|n2].
    { destruct query; [|simpl in H2; lia]. now rewrite !parseQuery_empty. }
    simpl. destruct (Nat.eqb_spec (String.length query) 0) as [|Hlen]; [reflexivity|].
    assert (Hq : query <> "") by (intros ->; simpl in Hlen; lia).
    pose proof (Cut_shorter "&" query Hq) as Hshort.
    destruct (Cut "&" query) as [[key query'] found]. simpl in Hshort.
    assert (Hgo : forall m' err', parseQuery n1 m' err' query' = parseQuery n2 m' err' query')
      by (intros; apply IH; lia).
    destruct (ContainsByte ";" key); [apply Hgo|].
    destruct (String.length key =? 0)%nat; [apply Hgo|].
    destruct (Cut "=" key) as [[key' value] found'].
    destruct (QueryUnescape key'); [|apply Hgo].
    destruct (QueryUnescape value); apply Hgo.
Qed.

Lemma tail_text_length L : length L <= String.length (tail_text L).
Proof.
  induction L as [|p L IH]; simpl; [lia|].
  rewrite !length_append. simpl. lia.
Qed.

Lemma ParseQuery_pairs_text L :
  ParseQuery (pairs_text L) = (foldl add_pair ∅ L, None).
Proof.
  destruct L as [|p L]; [reflexivity|].
  unfold ParseQuery. simpl pairs_text. rewrite parseQuery_pairs; [reflexivity|].
  rewrite length_append.
  pose proof (pair_text_length p). pose proof (tail_text_length L). lia.
Qed.

(** *** Adding the pairs of a collector rebuilds it *)

Lemma foldl_add_pair_key k vals m :
  foldl add_pair m (map (pair k) vals)
  = match vals with
    | [] => m
    | _ => <[k := (default [] (m !! k) ++ vals)%list]> m
    end.
Proof.
  revert m. induction vals as [|x vals IH]; intros m; [reflexivity|].
  simpl. rewrite IH. destruct vals as [|y vals]; [reflexivity|].
  unfold add_pair, Add. simpl.
  rewrite lookup_insert_eq, insert_insert_eq. simpl.
  now rewrite <- app_assoc.
Qed.

Lemma foldl_pairs_lookup (v : Values) ks (m : Values) :
  NoDup ks ->
  (forall k, k ∈ ks -> exists l, v !! k = Some l /\ l <> []) ->
  (forall k, k ∈ ks -> m !! k = None) ->
  forall k,
    foldl add_pair m (flat_map (fun k => map (pair k) (default [] (v !! k))) ks) !! k
    = if decide (k ∈ ks) then v !! k else m !! k.
Proof.
  intros Hnd. revert m.
  induction Hnd as [|k0 ks Hk0 Hnd IH]; intros m Hv Hm k; simpl.
  - destruct (decide (k ∈ [])) as [Hin|_]; [|reflexivity].
    now apply elem_of_nil in Hin.
  - rewrite foldl_app, foldl_add_pair_key.
    destruct (Hv k0) as (l0 & Hl0 & Hne); [left|].
    rewrite Hl0. simpl. destruct l0 as [|x l0]; [congruence|].
    rewrite (Hm k0) by left. simpl.
    rewrite IH.
    + destruct (decide (k = k0)) as [->|Hk].
      * destruct (decide (k0 ∈ ks)) as [|_]; [contradiction|].
        destruct (decide (k0 ∈ k0 :: ks)) as [_|Hn]; [|exfalso; apply Hn; left].
        now rewrite lookup_insert_eq.
      * rewrite lookup_insert_ne by congruence.
        destruct (decide (k ∈ ks)) as [Hin|Hin];
          destruct (decide (k ∈ k0 :: ks)) as [Hin'|Hin']; try reflexivity.
        -- exfalso. apply Hin'. now right.
        -- apply elem_of_cons in Hin' as [?|?]; contradiction.
    + intros k' Hk'. apply Hv. now right.
    + intros k' Hk'. rewrite lookup_insert_ne.
      * apply Hm. now right.
      * intros ->. contradiction.
Qed.

Lemma sorted_keys_NoDup (v : Values) : NoDup (sorted_keys v).
Proof.
  unfold sorted_keys. rewrite merge_sort_Permutation.
  apply NoDup_fst_map_to_list.
Qed.

Lemma elem_of_sorted_keys (v : Values) k : k ∈ sorted_keys v <-> is_Some (v !! k).
Proof.
  unfold sorted_keys. rewrite merge_sort_Permutation.
  rewrite list_elem_of_fmap. split.
  - intros [[k' l] [-> Hin]]. apply elem_of_map_to_list in Hin. simpl. eauto.
  - intros [l Hl]. exists (k, l). split; [reflexivity|].
    now apply elem_of_map_to_list.
Qed.

Lemma foldl_pairs (v : Values) : Values_wf v -> foldl add_pair ∅ (pairs v) = v.
Proof.
  intros Hwf. apply map_eq. intros k. unfold pairs.
  rewrite foldl_pairs_lookup.
  - destruct (decide (k ∈ sorted_keys v)) as [_|Hk]; [reflexivity|].
    rewrite lookup_empty. symmetry. apply eq_None_not_Some.
    intros Hs. apply Hk. now apply elem_of_sorted_keys.
  - apply sorted_keys_NoDup.
  - intros k' Hk'. apply elem_of_sorted_keys in Hk' as [l Hl].
    exists l. split; [assumption|]. now apply (Hwf k').
  - intros. apply lookup_empty.
Qed.

Lemma Values_wf_empty : Values_wf ∅.
Proof. intros k l Hl. now rewrite lookup_empty in Hl. Qed.

Lemma Values_wf_Add k x v : Values_wf v -> Values_wf (Add k x v).
Proof.
  intros Hwf k' l. unfold Add.
  destruct (decide (k = k')) as [->|Hk].
  - rewrite lookup_insert_eq. intros [= <-]. now destruct (default [] (v !! k')).
  - rewrite lookup_insert_ne by assumption. apply Hwf.
Qed.

Lemma Values_wf_foldl L v : Values_wf v -> Values_wf (foldl add_pair v L).
Proof.
  revert v. induction L as [|p L IH]; intros v Hwf; simpl; [assumption|].
  apply IH, Values_wf_Add, Hwf.
Qed.

(** With pairwise different keys, every key gets the one text added
    for it. *)
Lemma foldl_add_pair_fresh (L : list (string * string)) (m : Values) :
  NoDup L.*1 ->
  (forall k, k ∈ L.*1 -> m !! k = None) ->
  foldl add_pair m L = list_to_map ((fun p => (p.1, [p.2])) <$> L) ∪ m.
Proof.
  revert m. induction L as [|[k s] L IH]; intros m Hnd Hm.
  - simpl. now rewrite (left_id_L ∅ (∪)).
  - rewrite fmap_cons in Hnd. apply NoDup_cons in Hnd as [Hk Hnd].
    assert (Hmk : m !! k = None) by (apply Hm; rewrite fmap_cons; left).
    rewrite fmap_cons, list_to_map_cons. simpl foldl.
    change (add_pair m (k, s)) with (Add k s m). unfold Add.
    rewrite Hmk. simpl default. simpl app.
    rewrite IH; [|assumption|].
    + rewrite <- insert_union_l. symmetry. apply insert_union_r.
      apply not_elem_of_list_to_map_1.
      rewrite <- list_fmap_compose. exact Hk.
    + intros k' Hk'. rewrite lookup_insert_ne.
      * apply Hm. rewrite fmap_cons. now right.
      * intros ->. contradiction.
Qed.

(** Decoding what [Encode] wrote gives the collector back, with no
    error. *)
Lemma ParseQuery_Encode (v : Values) :
  Values_wf v -> ParseQuery (Encode v) = (v, None).
Proof.
  intros Hwf. now rewrite Encode_pairs_text, ParseQuery_pairs_text, foldl_pairs.
Qed.

End url_facts.

(** ** Decimal texts *)

Module decimal_facts.

Lemma read_digits_acc (d : Decimal.uint) (acc : positive) :
  read_digits (Z.pos acc) (NilEmpty.string_of_uint d)
  = Some (Z.pos (Pos.of_uint_acc d acc)).
Proof.
  revert acc. induction d as [|d IH|d IH|d IH|d IH|d IH|d IH|d IH|d IH|d IH|d IH];
    intros acc; [reflexivity|..];
    cbn [NilEmpty.string_of_uint read_digits Pos.of_uint_acc];
    change (is_digit _) with true; cbv iota; rewrite <- IH; f_equal;
    unfold digit_value; cbn; lia.
Qed.

Lemma read_digits_uint (d : Decimal.uint) :
  read_digits 0 (NilEmpty.string_of_uint d) = Some (Z.of_N (Pos.of_uint d)).
Proof.
  induction d as [|d IH|d IH|d IH|d IH|d IH|d IH|d IH|d IH|d IH|d IH];
    [reflexivity | exact IH |..];
    cbn [NilEmpty.string_of_uint read_digits Pos.of_uint];
    change (is_digit _) with true; cbv iota;
    apply (read_digits_acc d).
Qed.

Lemma digits_only_uint (d : Decimal.uint) : digits_only (NilEmpty.string_of_uint d) = true.
Proof. induction d; simpl; auto. Qed.

(** The digits of a positive number do not start with a zero. *)
Lemma to_uint_no_leading_zero (p : positive) (d : Decimal.uint) : Pos.to_uint p <> Decimal.D0 d.
Proof.
  intros Hp.
  assert (Hnz : forall d' d'', Decimal.nzhead d' <> Decimal.D0 d'').
  { induction d'; simpl; intros d''; try discriminate. apply IHd'. }
  pose proof (DecimalPos.Unsigned.of_to p) as Hof.
  pose proof (DecimalPos.Unsigned.to_of (Pos.to_uint p)) as Hto.
  rewrite Hof in Hto. cbn [N.to_uint] in Hto. rewrite Hp in Hto.
  unfold Decimal.unorm in Hto. cbn [Decimal.nzhead] in Hto.
  destruct (Decimal.nzhead d) as [|u|u|u|u|u|u|u|u|u|u] eqn:Hd; try discriminate Hto.
  - injection Hto as ->. now apply (DecimalPos.Unsigned.to_uint_nonzero p).
  - now apply Hnz in Hd.
Qed.

Lemma decimal_pos (p : positive) :
  decimal (Z.pos p) = NilEmpty.string_of_uint (Pos.to_uint p).
Proof.
  unfold decimal. simpl.
  pose proof (DecimalPos.Unsigned.to_uint_nonnil p) as Hnil.
  now destruct (Pos.to_uint p).
Qed.

Lemma decimal_neg (p : positive) :
  decimal (Z.neg p) = String "-" (NilEmpty.string_of_uint (Pos.to_uint p)).
Proof.
  unfold decimal. simpl.
  pose proof (DecimalPos.Unsigned.to_uint_nonnil p) as Hnil.
  now destruct (Pos.to_uint p).
Qed.

(** The digits of a positive number: what reading them gives, and
    their form. *)
Lemma digits_of_pos (p : positive) :
  let s := NilEmpty.string_of_uint (Pos.to_uint p) in
  read_digits 0 s = Some (Z.pos p)
  /\ canonical_digits s = true
  /\ s <> "0"
  /\ exists c s', s = String c s' /\ is_digit c = true.
Proof.
  cbv zeta.
  pose proof (read_digits_uint (Pos.to_uint p)) as Hread.
  rewrite DecimalPos.Unsigned.of_to in Hread.
  pose proof (to_uint_no_leading_zero p) as Hlead.
  pose proof (DecimalPos.Unsigned.to_uint_nonnil p) as Hnil.
  pose proof (digits_only_uint (Pos.to_uint p)) as Hdig.
  split; [exact Hread|].
  destruct (Pos.to_uint p) as [|d|d|d|d|d|d|d|d|d|d];
    [congruence | exfalso; now apply (Hlead d) |..];
    (split; [exact Hdig|]); (split; [discriminate|]); eauto.
Qed.

(** Reading the text of an integer gives the integer back, and the
    text has the one canonical form. *)
Lemma read_decimal_decimal (n : Z) :
  read_decimal (decimal n) = Some n /\ canonical_decimal (decimal n) = true.
Proof.
  destruct n as [|p|p].
  - split; reflexivity.
  - rewrite decimal_pos.
    destruct (digits_of_pos p) as (Hread & Hcan & _ & c & s' & Hs & Hc).
    rewrite Hs in *. unfold read_decimal, canonical_decimal.
    assert (Hminus : Ascii.eqb c "-" = false).
    { destruct (Ascii.eqb_spec c "-") as [->|]; [discriminate Hc | reflexivity]. }
    rewrite Hminus. split; assumption.
  - rewrite decimal_neg.
    destruct (digits_of_pos p) as (Hread & Hcan & Hzero & c & s' & Hs & Hc).
    unfold read_decimal, canonical_decimal. rewrite Ascii.eqb_refl, Hread, Hcan.
    rewrite Hs in *. split; [reflexivity|].
    destruct (String.eqb_spec (String c s') "0"); [contradiction | reflexivity].
Qed.

End decimal_facts.

(** ** The encoder: shape of the output *)

Section EncoderClaims.

Import url url_facts.

Variable Sprintf : string -> string -> string.

Lemma effective_key_empty k : effective_key Sprintf "" k = k.
Proof. reflexivity. Qed.

Lemma simple_values_wf params format :
  Values_wf (simple_values Sprintf params format).
Proof. apply Values_wf_foldl, Values_wf_empty. Qed.

(** C1 (as amended): for [{"a": {"b": "1"}}] and an empty format the
    output is [a%5Bb%5D=1&]: the child key is the bracket composition
    [a[b]] of the two names, written percent-encoded as every key is, and
    decoding the output gives the one key [a[b]] with the value [1]. *)
Theorem C1_nested_key_is_escaped_bracket_composition :
  Sprintf "a[%s]" "b" = "a[b]" ->
  queryParams Sprintf nested_example "" = QueryEscape "a[b]" +:+ "=1&"
  /\ queryParams Sprintf nested_example "" = "a%5Bb%5D=1&"
  /\ Contains (queryParams Sprintf nested_example "") "a%5Bb%5D=1" = true
  /\ ParseQuery (queryParams Sprintf nested_example "") = ({["a[b]" := ["1"]]}, None).
Proof.
  intros HS.
  assert (Hout : queryParams Sprintf nested_example "" = "a%5Bb%5D=1&").
  { change (queryParams Sprintf nested_example "")
      with (finish (switch_value Sprintf "a" (VMap [("b", VString "1")]) (∅, ""))).
    rewrite switch_value_VMap.
    change (queryParams Sprintf [("b", VString "1")] ("a" +:+ "[%s]"))
      with (finish (Add (Sprintf "a[%s]" "b") "1" ∅, "")).
    rewrite HS. vm_compute. reflexivity. }
  rewrite Hout. repeat split; vm_compute; reflexivity.
Qed.

(** The collector does not depend on the order in which the entries
    are visited, as long as no two simple entries share an effective
    key. *)
Lemma simple_values_order (params params' : H) (format : string) :
  params' ≡ₚ params ->
  NoDup (omap (simple_pair Sprintf format) params).*1 ->
  simple_values Sprintf params' format = simple_values Sprintf params format.
Proof.
  intros Hperm Hnd. unfold simple_values.
  assert (Hperm' : omap (simple_pair Sprintf format) params'
                     ≡ₚ omap (simple_pair Sprintf format) params)
    by now rewrite Hperm.
  rewrite !foldl_add_pair_fresh; try (intros; apply lookup_empty); try assumption.
  - f_equal. apply list_to_map_proper.
    + rewrite <- list_fmap_compose. now rewrite Hperm'.
    + now rewrite Hperm'.
  - now rewrite Hperm'.
Qed.

(** C2: for every parameter map, whatever the order in which it is
    visited, the output is the nested fragments, each one followed by
    one [&], and after them the encoding of the collected simple values;
    when some entry is a nested map and no entry is simple, the output
    ends with [&].  Visiting the entries in another order permutes the
    fragments and, the effective keys being pairwise different, leaves
    the encoding of the simple values as it is. *)
Theorem C2_nested_fragments_precede_simple_values (params : H) (format : string) :
  queryParams Sprintf params format
  = nested_fragments Sprintf params format
      +:+ Encode (simple_values Sprintf params format)
  /\ (forall k m, nested_fragment Sprintf format (k, VMap m)
        = Some (queryParams Sprintf m (effective_key Sprintf format k +:+ "[%s]") +:+ "&"))
  /\ (omap (nested_fragment Sprintf format) params <> [] ->
      omap (simple_pair Sprintf format) params = [] ->
      exists s, queryParams Sprintf params format = s +:+ "&")
  /\ (forall params', params' ≡ₚ params ->
        omap (nested_fragment Sprintf format) params'
          ≡ₚ omap (nested_fragment Sprintf format) params
        /\ (NoDup (omap (simple_pair Sprintf format) params).*1 ->
            Encode (simple_values Sprintf params' format)
            = Encode (simple_values Sprintf params format))).
Proof.
  split; [apply queryParams_split|]. split; [reflexivity|].
  split; [|intros params' Hperm; split;
           [now rewrite Hperm | intros Hnd; f_equal; now apply simple_values_order]].
  intros Hnested Hsimple. rewrite queryParams_split.
  unfold simple_values, nested_fragments. rewrite Hsimple. simpl foldl.
  change (Encode ∅) with "". rewrite append_nil_r.
  apply foldr_append_ends; [assumption|].
  apply Forall_forall. intros f Hin.
  apply list_elem_of_omap in Hin as ([k v] & _ & Hkv).
  unfold nested_fragment in Hkv. simpl in Hkv.
  destruct v; try discriminate. injection Hkv as <-. eauto.
Qed.

Lemma flat_simple_pairs (params : H) :
  forallb (fun e => flat_leaf e.2) params = true ->
  omap (simple_pair Sprintf "") params
  = (fun e => (e.1, string_of_value e.2)) <$> params
  /\ omap (nested_fragment Sprintf "") params = [].
Proof.
  induction params as [|[k v] params IH]; intros Hflat; [split; reflexivity|].
  simpl in Hflat. apply andb_true_iff in Hflat as [Hv Hflat].
  destruct (IH Hflat) as [IH1 IH2].
  rewrite !omap_cons, IH1, IH2.
  destruct v; try discriminate; split; reflexivity.
Qed.

(** C3: for a flat map whose values are strings or integers, decoding
    the output for the empty format succeeds and yields exactly the
    mapping from each key to the text of its value. *)
Theorem C3_flat_round_trip (params : H) :
  NoDup params.*1 ->
  forallb (fun e => flat_leaf e.2) params = true ->
  ParseQuery (queryParams Sprintf params "") = (text_mapping params, None)
  /\ (forall k v, (k, v) ∈ params ->
        (ParseQuery (queryParams Sprintf params "")).1 !! k = Some [string_of_value v])
  /\ (forall k, k ∉ params.*1 ->
        (ParseQuery (queryParams Sprintf params "")).1 !! k = None).
Proof.
  intros Hnd Hflat.
  assert (Hparse : ParseQuery (queryParams Sprintf params "") = (text_mapping params, None));
    [|rewrite Hparse; split; [reflexivity|]; split; simpl; unfold text_mapping].
  2:{ intros k v Hkv. apply elem_of_list_to_map.
      - now rewrite <- list_fmap_compose.
      - apply list_elem_of_fmap. now exists (k, v). }
  2:{ intros k Hk. apply not_elem_of_list_to_map.
      now rewrite <- list_fmap_compose. }
  destruct (flat_simple_pairs params Hflat) as [Hsimple Hnested].
  rewrite queryParams_split. unfold nested_fragments. rewrite Hnested. simpl foldr.
  rewrite append_nil_l, ParseQuery_Encode by apply simple_values_wf.
  f_equal. unfold simple_values, text_mapping. rewrite Hsimple.
  rewrite foldl_add_pair_fresh.
  - rewrite (right_id_L ∅ (∪)). now rewrite <- list_fmap_compose.
  - now rewrite <- list_fmap_compose.
  - intros. apply lookup_empty.
Qed.

Lemma Add_empty k s : Add k s ∅ = {[k := [s]]}.
Proof. unfold Add. now rewrite lookup_empty, insert_empty. Qed.

Lemma Encode_singleton k s : Encode {[k := [s]]} = pair_text (k, s).
Proof.
  rewrite Encode_pairs_text. unfold pairs, sorted_keys.
  rewrite map_to_list_singleton.
  change (merge_sort String.le [(k, [s])].*1) with [k].
  simpl flat_map. rewrite lookup_singleton_eq. simpl.
  apply append_nil_r.
Qed.

Lemma prune_value_VMap m : prune_value (VMap m) = VMap (prune m).
Proof. reflexivity. Qed.

(** Entries without a case leave the state of the loop as it was, at
    every depth. *)
Lemma switch_value_prune v :
  forall nk st,
    switch_value Sprintf nk (prune_value v) st = switch_value Sprintf nk v st.
Proof.
  induction v as [s|b|m IH|t n|o] using value_nested_ind; intros nk st;
    try reflexivity.
  rewrite prune_value_VMap, !switch_value_VMap. do 2 f_equal.
  unfold queryParams. f_equal. generalize (∅ : Values, ""). generalize (nk +:+ "[%s]").
  induction IH as [|[k v] m Hv _ IHm]; intros format st'; [reflexivity|].
  simpl in Hv. simpl prune. destruct (supported v) eqn:Hsup.
  - simpl range_params. rewrite Hv. apply IHm.
  - simpl range_params. rewrite IHm. destruct v; try discriminate. reflexivity.
Qed.

Lemma range_params_prune params :
  forall format st,
    range_params Sprintf (prune params) format st = range_params Sprintf params format st.
Proof.
  induction params as [|[k v] params IH]; intros format st; [reflexivity|].
  simpl prune. destruct (supported v) eqn:Hsup.
  - simpl range_params. rewrite switch_value_prune. apply IH.
  - simpl range_params. rewrite IH. destruct v; try discriminate. reflexivity.
Qed.

Lemma ParseQuery_pair_text k s :
  ParseQuery (pair_text (k, s)) = ({[k := [s]]}, None).
Proof.
  rewrite <- Encode_singleton. apply ParseQuery_Encode.
  intros k' l. rewrite lookup_singleton. destruct (decide (k = k')); [|discriminate].
  now intros [= <-].
Qed.

(** C4: the switch adds a string or a byte sequence verbatim, and an
    integer of any of the ten listed types as its decimal text, as one
    value under the effective key (the key itself for the empty format,
    else [Sprintf(format, key)]); a value of any other dynamic type adds
    nothing.  In the output that value stands after the key and [=],
    percent-encoded by [Encode], and decoding the output gives the value
    back unchanged.  The decimal text is canonical and reads back as the
    integer.  For every map the collector holds exactly these texts,
    decoding its encoding gives them back unchanged, and the output is
    that of the map without its unsupported entries; the encoder returns
    a string in every case, it has no error result. *)
Theorem C4_cases_of_the_type_switch (params : H) (format k : string) :
  (forall s, queryParams Sprintf [(k, VString s)] format
             = pair_text (effective_key Sprintf format k, s))
  /\ (forall b, queryParams Sprintf [(k, VBytes b)] format
                = pair_text (effective_key Sprintf format k, b))
  /\ (forall t n, queryParams Sprintf [(k, VInt t n)] format
                  = pair_text (effective_key Sprintf format k, decimal n))
  /\ (forall o, queryParams Sprintf [(k, VOther o)] format = "")
  /\ (range_params Sprintf params format (∅, "")).1
     = foldl add_pair ∅ (omap (simple_pair Sprintf format) params)
  /\ ParseQuery (Encode (simple_values Sprintf params format))
     = (simple_values Sprintf params format, None)
  /\ queryParams Sprintf (prune params) format = queryParams Sprintf params format
  /\ effective_key Sprintf "" k = k
  /\ (format <> "" -> effective_key Sprintf format k = Sprintf format k)
  /\ (forall n, read_decimal (decimal n) = Some n
                /\ canonical_decimal (decimal n) = true)
  /\ (forall s, range_params Sprintf [(k, VString s)] format (∅, "")
                = ({[effective_key Sprintf format k := [s]]}, ""))
  /\ (forall b, range_params Sprintf [(k, VBytes b)] format (∅, "")
                = ({[effective_key Sprintf format k := [b]]}, ""))
  /\ (forall t n, range_params Sprintf [(k, VInt t n)] format (∅, "")
                  = ({[effective_key Sprintf format k := [decimal n]]}, ""))
  /\ (forall o, range_params Sprintf [(k, VOther o)] format (∅, "") = (∅, ""))
  /\ (forall s, ParseQuery (queryParams Sprintf [(k, VString s)] format)
                = ({[effective_key Sprintf format k := [s]]}, None))
  /\ (forall b, ParseQuery (queryParams Sprintf [(k, VBytes b)] format)
                = ({[effective_key Sprintf format k := [b]]}, None))
  /\ (forall t n, ParseQuery (queryParams Sprintf [(k, VInt t n)] format)
                  = ({[effective_key Sprintf format k := [decimal n]]}, None)).
Proof.
  assert (Hone : forall s, finish (Add (effective_key Sprintf format k) s ∅, "")
                           = pair_text (effective_key Sprintf format k, s)).
  { intros s. unfold finish. simpl. now rewrite Add_empty, Encode_singleton. }
  assert (Hcol : forall s, (Add (effective_key Sprintf format k) s ∅, "")
                           = (({[effective_key Sprintf format k := [s]]} : Values), "")).
  { intros s. now rewrite Add_empty. }
  assert (Hdec : forall s, ParseQuery (finish (Add (effective_key Sprintf format k) s ∅, ""))
                           = ({[effective_key Sprintf format k := [s]]}, None)).
  { intros s. rewrite Hone. apply ParseQuery_pair_text. }
  split; [intros s; apply Hone|]. split; [intros b; apply Hone|].
  split; [intros t n; apply Hone|]. split; [reflexivity|].
  split; [now rewrite range_params_split|].
  split; [apply ParseQuery_Encode, simple_values_wf|].
  split; [unfold queryParams; now rewrite range_params_prune|].
  split; [reflexivity|].
  split.
  { intros Hf. unfold effective_key.
    destruct format; [congruence | reflexivity]. }
  split; [apply decimal_facts.read_decimal_decimal|].
  split; [intros s; apply Hcol|]. split; [intros b; apply Hcol|].
  split; [intros t n; apply Hcol|]. split; [reflexivity|].
  split; [intros s; apply Hdec|]. split; [intros b; apply Hdec|].
  intros t n; apply Hdec.
Qed.

End EncoderClaims.

(** ** Building and dispatching requests *)

Section RequestClaims.

Variable Sprintf : string -> string -> string.
Variable Marshal : option H -> string + error.
Variable NewRequest_check : string -> string -> option error.

Lemma queryParams_nil format : queryParams Sprintf [] format = "".
Proof. reflexivity. Qed.

Lemma queryParams_one_string k s :
  queryParams Sprintf [(k, VString s)] "" = url.pair_text (k, s).
Proof.
  unfold queryParams, finish. simpl.
  now rewrite Add_empty, Encode_singleton.
Qed.

Lemma do_eq method contentType url params header duration :
  do Sprintf Marshal NewRequest_check method contentType url params header duration
  = let method := if String.eqb method "" then "GET" else method in
    match NewRequest_check method url with
    | Some e => Err e
    | None =>
        Do clientPool
           {| http.Method := method; http.URL := url;
              http.Body := getData Sprintf Marshal contentType params;
              http.Header_ := header |}
    end.
Proof.
  unfold do, makeRequest, http_NewRequest. cbv zeta.
  destruct (NewRequest_check _ url); reflexivity.
Qed.

(** C5: the URL of a GET request is the given URL, a [?], and the
    output of the encoder for the parameters with the empty format, both
    in a request built by [NewRequest] and in one sent by [Get]; a GET to
    [http://x/y] with [{"q": "v"}] has the URL [http://x/y?q=v]. *)
Theorem C5_get_url_carries_the_query
    (contentType : ContentType) (url : string) (params : option H)
    (header : option http.Header) (timeout : Z) :
  getRequestURL Sprintf url params
  = url +:+ "?" +:+ queryParams Sprintf (entries params) ""
  /\ Url (NewRequest Sprintf GetMethod contentType url params header timeout)
     = url +:+ "?" +:+ queryParams Sprintf (entries params) ""
  /\ Get Sprintf NewRequest_check url params
     = match NewRequest_check "GET" (url +:+ "?" +:+ queryParams Sprintf (entries params) "") with
       | Some e => Err e
       | None =>
           Do clientPool
              {| http.Method := "GET";
                 http.URL := url +:+ "?" +:+ queryParams Sprintf (entries params) "";
                 http.Body := ""; http.Header_ := Some ∅ |}
       end
  /\ getRequestURL Sprintf "http://x/y" (Some [("q", VString "v")]) = "http://x/y?q=v".
Proof.
  split; [reflexivity|]. split; [reflexivity|]. split.
  - unfold Get, http_NewRequest, getRequestURL.
    destruct (NewRequest_check _ _); reflexivity.
  - unfold getRequestURL, entries. simpl default.
    rewrite queryParams_one_string. reflexivity.
Qed.

(** C6: a request constructed with the method GET has its parameters
    in its URL and a nil [Params]; dispatching it passes nil parameters
    on, sends the constructed URL unchanged, and sends a body that does
    not depend on the parameters (empty unless the content type is the
    JSON one). *)
Theorem C6_get_request_has_no_params
    (contentType : ContentType) (url : string) (params : option H)
    (header : option http.Header) (timeout : Z) :
  let req := NewRequest Sprintf GetMethod contentType url params header timeout in
  Params req = None
  /\ Url req = getRequestURL Sprintf url params
  /\ DoRequest Sprintf Marshal NewRequest_check req
     = do Sprintf Marshal NewRequest_check GetMethod contentType
          (getRequestURL Sprintf url params) None header timeout
  /\ DoRequest Sprintf Marshal NewRequest_check req
     = match NewRequest_check "GET" (getRequestURL Sprintf url params) with
       | Some e => Err e
       | None =>
           Do clientPool
              {| http.Method := "GET";
                 http.URL := getRequestURL Sprintf url params;
                 http.Body := getData Sprintf Marshal contentType None;
                 http.Header_ := header |}
       end
  /\ (contentType <> JsonType -> getData Sprintf Marshal contentType None = "").
Proof.
  split; [reflexivity|]. split; [reflexivity|]. split; [reflexivity|]. split.
  - unfold DoRequest. simpl. apply do_eq.
  - intros Hct. unfold getData.
    destruct (String.eqb_spec contentType JsonType); [contradiction | reflexivity].
Qed.

Lemma Header_Set_lookup (h : http.Header) (key value k : string) :
  http.Header_Set key value h !! k
  = if decide (key = k) then Some [value] else h !! k.
Proof. unfold http.Header_Set. apply lookup_insert. Qed.

Lemma Header_Set_new (key value : string) :
  http.Header_Set key value ∅ = {[key := [value]]}.
Proof. unfold http.Header_Set. apply insert_empty. Qed.

(** What a POST sent through [do] with a [Content-Type] set on the
    caller's header looks like. *)
Lemma do_post_with_content_type contentType value url params header duration c req :
  do Sprintf Marshal NewRequest_check PostMethod contentType url params
     (Some (http.Header_Set "Content-Type" value (default ∅ header))) duration
  = Do c req ->
  c = clientPool
  /\ http.Method req = "POST"
  /\ http.URL req = url
  /\ http.Body req = getData Sprintf Marshal contentType params
  /\ exists h : http.Header,
       http.Header_ req = Some h
       /\ h !! "Content-Type" = Some [value]
       /\ (forall k, k <> "Content-Type" -> h !! k = default ∅ header !! k)
       /\ (header = None -> h = {["Content-Type" := [value]]}).
Proof.
  rewrite do_eq. cbv zeta. change (String.eqb PostMethod "") with false. cbv iota.
  destruct (NewRequest_check PostMethod url); [discriminate|].
  intros [= <- <-]. repeat (split; [reflexivity|]).
  eexists. split; [reflexivity|]. split; [|split].
  - rewrite Header_Set_lookup. now destruct (decide _).
  - intros k Hk. rewrite Header_Set_lookup.
    destruct (decide _) as [Heq|_]; [congruence | reflexivity].
  - intros ->. apply Header_Set_new.
Qed.

(** C7: a request sent by [Form] or [Json] is a POST whose header map
    has [Content-Type] set to the form type, respectively to
    [application/json;charset=utf-8], and agrees with the caller's map
    on every other key; without a caller's map it holds [Content-Type]
    alone.  The body is the encoding of the parameters for [Form] ([k=v]
    for [{"k": "v"}]) and their JSON serialization for [Json] ([{"n":3}]
    for [{"n": 3}]). *)
Theorem C7_form_and_json_set_content_type
    (url : string) (params : option H) (header : option http.Header) (duration : Z)
    (c : http.Client) (req : http.Request) :
  (Form Sprintf Marshal NewRequest_check url params header duration = Do c req ->
   http.Method req = "POST" /\ http.URL req = url
   /\ http.Body req = queryParams Sprintf (entries params) ""
   /\ exists h : http.Header,
        http.Header_ req = Some h
        /\ h !! "Content-Type" = Some ["application/x-www-form-urlencoded"]
        /\ (forall k, k <> "Content-Type" -> h !! k = default ∅ header !! k)
        /\ (header = None -> h = {["Content-Type" := ["application/x-www-form-urlencoded"]]}))
  /\ (Json Sprintf Marshal NewRequest_check url params header duration = Do c req ->
      http.Method req = "POST" /\ http.URL req = url
      /\ http.Body req = match Marshal params with inl js => js | inr _ => "" end
      /\ exists h : http.Header,
           http.Header_ req = Some h
           /\ h !! "Content-Type" = Some ["application/json;charset=utf-8"]
           /\ (forall k, k <> "Content-Type" -> h !! k = default ∅ header !! k)
           /\ (header = None -> h = {["Content-Type" := ["application/json;charset=utf-8"]]}))
  /\ getData Sprintf Marshal FormType (Some [("k", VString "v")]) = "k=v"
  /\ (Marshal (Some [("n", VInt Int 3)]) = inl json_n3 ->
      getData Sprintf Marshal JsonType (Some [("n", VInt Int 3)]) = json_n3).
Proof.
  split; [|split; [|split]].
  - intros HForm.
    assert (Hdo := do_post_with_content_type FormType FormType url params header duration c req).
    destruct header as [h0|]; destruct (Hdo HForm) as (_ & HM & HU & HB & Hh); auto.
  - intros HJson.
    assert (Hdo := do_post_with_content_type JsonType "application/json;charset=utf-8"
                     url params header duration c req).
    destruct header as [h0|]; destruct (Hdo HJson) as (_ & HM & HU & HB & Hh); auto.
  - unfold getData, entries. simpl. now rewrite queryParams_one_string.
  - intros HM. unfold getData. simpl. now rewrite HM.
Qed.

(** C8: when the JSON serialization of the parameters fails, the body
    built for the JSON content type is empty and the failure is not
    reported: the request is made with the empty body, and the only
    error [do] can return is that of the request's construction.  When
    the serialization succeeds the body is its result. *)
Theorem C8_json_failure_gives_empty_body (params : option H) :
  (forall e, Marshal params = inr e ->
     getData Sprintf Marshal JsonType params = ""
     /\ forall method url header duration,
          do Sprintf Marshal NewRequest_check method JsonType url params header duration
          = match http_NewRequest NewRequest_check method url "" with
            | inl e' => Err e'
            | inr req =>
                Do clientPool {| http.Method := http.Method req; http.URL := http.URL req;
                                 http.Body := ""; http.Header_ := header |}
            end)
  /\ (forall js, Marshal params = inl js ->
        getData Sprintf Marshal JsonType params = js).
Proof.
  assert (HJ : forall r, Marshal params = r ->
               getData Sprintf Marshal JsonType params
               = match r with inl js => js | inr _ => "" end).
  { intros r <-. reflexivity. }
  split.
  - intros e He. split; [apply (HJ _ He)|].
    intros. rewrite do_eq, (HJ _ He). unfold http_NewRequest. cbv zeta.
    destruct (NewRequest_check _ url); reflexivity.
  - intros js Hjs. apply (HJ _ Hjs).
Qed.

(** C9: the duration passed to a call changes nothing: [do], [Form],
    [Json], [Auto] and [DoRequest] return the same for any two
    durations, and every request is sent with the one client
    [clientPool], whose timeout is 30 seconds. *)
Theorem C9_duration_has_no_effect
    (method : MethodType) (contentType : ContentType) (url : string)
    (params : option H) (header : option http.Header) (d1 d2 : Z) :
  do Sprintf Marshal NewRequest_check method contentType url params header d1
  = do Sprintf Marshal NewRequest_check method contentType url params header d2
  /\ Form Sprintf Marshal NewRequest_check url params header d1
     = Form Sprintf Marshal NewRequest_check url params header d2
  /\ Json Sprintf Marshal NewRequest_check url params header d1
     = Json Sprintf Marshal NewRequest_check url params header d2
  /\ Auto Sprintf Marshal NewRequest_check method contentType url params header d1
     = Auto Sprintf Marshal NewRequest_check method contentType url params header d2
  /\ DoRequest Sprintf Marshal NewRequest_check
       (NewRequest Sprintf method contentType url params header d1)
     = DoRequest Sprintf Marshal NewRequest_check
         (NewRequest Sprintf method contentType url params header d2)
  /\ (forall c req,
        do Sprintf Marshal NewRequest_check method contentType url params header d1
        = Do c req ->
        c = clientPool /\ http.Timeout c = (30 * http.Second)%Z
        /\ http.Transport_ c = transport).
Proof.
  split; [reflexivity|]. split; [reflexivity|]. split; [reflexivity|].
  split; [reflexivity|]. split.
  - unfold NewRequest, DoRequest. destruct (String.eqb method GetMethod); reflexivity.
  - intros c req. rewrite do_eq. cbv zeta.
    destruct (NewRequest_check _ url); [discriminate|].
    intros [= <- _]. repeat split.
Qed.

(** C10: [Auto] with the method GET is [Get] on the URL and the
    parameters: the content type, the header map and the duration given
    to it play no part, and the request it sends has the header map of a
    new request, with no entry of the caller's. *)
Theorem C10_auto_get_drops_header_and_duration
    (contentType : ContentType) (url : string) (params : option H)
    (header : option http.Header) (duration : Z) :
  Auto Sprintf Marshal NewRequest_check GetMethod contentType url params header duration
  = Get Sprintf NewRequest_check url params
  /\ (forall contentType' header' duration',
        Auto Sprintf Marshal NewRequest_check GetMethod contentType' url params header' duration'
        = Auto Sprintf Marshal NewRequest_check GetMethod contentType url params header duration)
  /\ (forall c req,
        Auto Sprintf Marshal NewRequest_check GetMethod contentType url params header duration
        = Do c req ->
        http.Header_ req = Some ∅ /\ http.Body req = ""
        /\ http.Method req = "GET"
        /\ http.URL req = getRequestURL Sprintf url params).
Proof.
  split; [reflexivity|]. split; [reflexivity|].
  intros c req. change (Auto _ _ _ GetMethod _ _ _ _ _) with (Get Sprintf NewRequest_check url params).
  unfold Get, http_NewRequest.
  destruct (NewRequest_check _ _); [discriminate|].
  intros [= _ <-]. repeat split.
Qed.

End RequestClaims.

(** ** The properties at concrete inputs *)

Example decimal_examples :
  decimal 0 = "0" /\ decimal (-42) = "-42" /\ decimal 18446744073709551615 = "18446744073709551615".
Proof. repeat split. Qed.

Example QueryEscape_examples :
  url.QueryEscape "a[b]" = "a%5Bb%5D"
  /\ url.QueryEscape "x y+z" = "x+y%2Bz"
  /\ url.QueryUnescape "x+y%2Bz" = inl "x y+z"
  /\ url.QueryUnescape "%zz" = inr (url.EscapeError "%zz").
Proof. repeat split. Qed.

Example Sprintf_s_bracket : Sprintf_s "a[%s]" "b" = "a[b]".
Proof. reflexivity. Qed.

(** On the formats the encoder builds from a key without [%], the
    instance composes the parent and the child name with brackets. *)
Lemma Sprintf_s_brackets (nk k : string) :
  url.ContainsByte "%" nk = false ->
  Sprintf_s (nk +:+ "[%s]") k = nk +:+ "[" +:+ k +:+ "]".
Proof.
  induction nk as [|c nk IH]; intros Hnk; [reflexivity|].
  simpl in Hnk. apply orb_false_iff in Hnk as [Hc Hnk].
  rewrite !append_cons. specialize (IH Hnk).
  destruct c as [[] [] [] [] [] [] [] []];
    first [discriminate Hc | simpl; rewrite IH; reflexivity].
Qed.

(** C1, as stated, fails: the output for [{"a": {"b": "1"}}] is
    [a%5Bb%5D=1&], in which the text [a[b]=1] does not occur. *)
Lemma C1_literal_brackets_do_not_occur :
  queryParams Sprintf_s nested_example "" = "a%5Bb%5D=1&"
  /\ Contains (queryParams Sprintf_s nested_example "") "a[b]=1" = false.
Proof. split; vm_compute; reflexivity. Qed.

Lemma C1_nested_key_witness :
  Sprintf_s "a[%s]" "b" = "a[b]"
  /\ queryParams Sprintf_s nested_example "" = "a%5Bb%5D=1&"
  /\ url.ParseQuery (queryParams Sprintf_s nested_example "") = ({["a[b]" := ["1"]]}, None).
Proof.
  destruct (C1_nested_key_is_escaped_bracket_composition Sprintf_s eq_refl)
    as (_ & Hout & _ & Hparse).
  split; [reflexivity|]. split; assumption.
Defined.

Example mixed_example_orders :
  queryParams Sprintf_s mixed_example "" = "a%5Bb%5D=1&b=2&z=1"
  /\ queryParams Sprintf_s (reverse mixed_example) "" = "a%5Bb%5D=1&b=2&z=1".
Proof. split; vm_compute; reflexivity. Qed.

Lemma C2_trailing_separator_witness :
  omap (nested_fragment Sprintf_s "") nested_only_example <> []
  /\ omap (simple_pair Sprintf_s "") nested_only_example = []
  /\ queryParams Sprintf_s nested_only_example "" = "a%5Bb%5D=1&&"
  /\ exists s, queryParams Sprintf_s nested_only_example "" = s +:+ "&".
Proof.
  assert (Hn : omap (nested_fragment Sprintf_s "") nested_only_example <> [])
    by (vm_compute; discriminate).
  assert (Hs : omap (simple_pair Sprintf_s "") nested_only_example = [])
    by reflexivity.
  split; [exact Hn|]. split; [exact Hs|]. split; [vm_compute; reflexivity|].
  exact (proj1 (proj2 (proj2 (C2_nested_fragments_precede_simple_values
                                Sprintf_s nested_only_example ""))) Hn Hs).
Defined.

Lemma C3_flat_round_trip_witness :
  NoDup flat_example.*1
  /\ forallb (fun e => flat_leaf e.2) flat_example = true
  /\ queryParams Sprintf_s flat_example "" = "=&k%5B%5D=255&n=-7&name=a+b%26c%3Dd"
  /\ url.ParseQuery (queryParams Sprintf_s flat_example "")
     = (text_mapping flat_example, None).
Proof.
  assert (Hnd : NoDup flat_example.*1)
    by (apply (bool_decide_unpack _); vm_compute; exact I).
  split; [exact Hnd|]. split; [reflexivity|]. split; [vm_compute; reflexivity|].
  exact (proj1 (C3_flat_round_trip Sprintf_s flat_example Hnd eq_refl)).
Defined.

Lemma C4_type_switch_witness :
  queryParams Sprintf_s [("n", VInt Int8 (-42))] "a[%s]" = "a%5Bn%5D=-42"
  /\ queryParams Sprintf_s [("s", VString "x y&z")] "a[%s]" = "a%5Bs%5D=x+y%26z"
  /\ url.ParseQuery (queryParams Sprintf_s [("s", VString "x y&z")] "a[%s]")
     = ({["a[s]" := ["x y&z"]]}, None)
  /\ queryParams Sprintf_s [("b", VBytes "raw")] "" = "b=raw"
  /\ queryParams Sprintf_s [("u", VInt Uint64 18446744073709551615)] ""
     = "u=18446744073709551615"
  /\ queryParams Sprintf_s [("f", VOther (Float64 0)); ("t", VOther (Bool true))] "" = ""
  /\ read_decimal (decimal (-42)) = Some (-42)%Z
  /\ decimal (-42) = "-42" /\ decimal 0 = "0".
Proof.
  destruct (C4_cases_of_the_type_switch Sprintf_s [] "a[%s]" "n")
    as (_ & _ & Hint & _ & _ & _ & _ & _ & Hkey & Hread & _).
  destruct (C4_cases_of_the_type_switch Sprintf_s [] "a[%s]" "s")
    as (Hstr & _ & _ & _ & _ & _ & _ & _ & Hkey' & _ & _ & _ & _ & _ & Hdec & _).
  destruct (C4_cases_of_the_type_switch Sprintf_s [] "" "b") as (_ & Hbytes & _).
  destruct (C4_cases_of_the_type_switch Sprintf_s [] "" "u") as (_ & _ & Hu & _).
  destruct (C4_cases_of_the_type_switch Sprintf_s
              [("f", VOther (Float64 0)); ("t", VOther (Bool true))] "" "f")
    as (_ & _ & _ & _ & _ & _ & Hprune & _).
  split; [rewrite Hint, Hkey by discriminate; vm_compute; reflexivity|].
  split; [rewrite Hstr, Hkey' by discriminate; vm_compute; reflexivity|].
  split; [rewrite Hdec, Hkey' by discriminate; reflexivity|].
  split; [rewrite Hbytes; vm_compute; reflexivity|].
  split; [rewrite Hu; vm_compute; reflexivity|].
  split; [rewrite <- Hprune; reflexivity|].
  split; [apply Hread|]. split; reflexivity.
Defined.

Example Marshal_flat_examples :
  Marshal_flat (Some [("n", VInt Int 3)]) = inl json_n3
  /\ Marshal_flat None = inl "null"
  /\ Marshal_flat (Some [("c", VOther Chan)])
     = inr (Error "json: unsupported type: chan int").
Proof. repeat split. Qed.

Lemma C6_get_request_witness :
  FormType <> JsonType
  /\ Params (NewRequest Sprintf_s GetMethod FormType "http://x/y"
               (Some [("q", VString "v")]) None 5) = None
  /\ DoRequest Sprintf_s Marshal_flat NewRequest_check_plain
       (NewRequest Sprintf_s GetMethod FormType "http://x/y"
          (Some [("q", VString "v")]) None 5)
     = Do clientPool {| http.Method := "GET"; http.URL := "http://x/y?q=v";
                        http.Body := ""; http.Header_ := None |}.
Proof.
  assert (Hct : FormType <> JsonType) by discriminate.
  destruct (C6_get_request_has_no_params Sprintf_s Marshal_flat NewRequest_check_plain
              FormType "http://x/y" (Some [("q", VString "v")]) None 5)
    as (HP & _ & _ & HDo & HBody).
  split; [exact Hct|]. split; [exact HP|].
  rewrite HDo, (HBody Hct). vm_compute. reflexivity.
Defined.

Lemma C7_form_and_json_witness :
  (exists c req,
     Form Sprintf_s Marshal_flat NewRequest_check_plain "http://x/y"
       (Some [("k", VString "v")]) (Some example_header) 0 = Do c req
     /\ http.Body req = "k=v"
     /\ exists h : http.Header,
          http.Header_ req = Some h
          /\ h !! "Content-Type" = Some ["application/x-www-form-urlencoded"]
          /\ h !! "X-Trace" = Some ["7"])
  /\ (exists c req,
        Json Sprintf_s Marshal_flat NewRequest_check_plain "http://x/y"
          (Some [("n", VInt Int 3)]) None 0 = Do c req
        /\ http.Body req = json_n3
        /\ http.Header_ req
           = Some {["Content-Type" := ["application/json;charset=utf-8"]]}).
Proof.
  split.
  - eexists; eexists. split; [vm_compute; reflexivity|].
    match goal with
    | |- http.Body ?r = _ /\ _ =>
        destruct (C7_form_and_json_set_content_type Sprintf_s Marshal_flat
                    NewRequest_check_plain "http://x/y" (Some [("k", VString "v")])
                    (Some example_header) 0 clientPool r) as (HF & _ & Hkv & _)
    end.
    destruct (HF ltac:(vm_compute; reflexivity)) as (_ & _ & HB & h & Hh & HCT & Hother & _).
    split; [rewrite HB; exact Hkv|].
    exists h. split; [exact Hh|]. split; [exact HCT|].
    rewrite Hother by discriminate. reflexivity.
  - eexists; eexists. split; [vm_compute; reflexivity|].
    match goal with
    | |- http.Body ?r = _ /\ _ =>
        destruct (C7_form_and_json_set_content_type Sprintf_s Marshal_flat
                    NewRequest_check_plain "http://x/y" (Some [("n", VInt Int 3)])
                    None 0 clientPool r) as (_ & HJ & _ & Hn3)
    end.
    destruct (HJ ltac:(vm_compute; reflexivity)) as (_ & _ & HB & h & Hh & _ & _ & Hnew).
    split; [rewrite HB; exact (Hn3 eq_refl)|].
    rewrite Hh, (Hnew eq_refl). reflexivity.
Defined.

Lemma C8_json_failure_witness :
  Marshal_flat (Some [("c", VOther Chan)]) = inr (Error "json: unsupported type: chan int")
  /\ getData Sprintf_s Marshal_flat JsonType (Some [("c", VOther Chan)]) = ""
  /\ do Sprintf_s Marshal_flat NewRequest_check_plain PostMethod JsonType "http://x/y"
        (Some [("c", VOther Chan)]) None 0
     = Do clientPool {| http.Method := "POST"; http.URL := "http://x/y";
                        http.Body := ""; http.Header_ := None |}
  /\ getData Sprintf_s Marshal_flat JsonType (Some [("n", VInt Int 3)]) = json_n3.
Proof.
  destruct (C8_json_failure_gives_empty_body Sprintf_s Marshal_flat NewRequest_check_plain
              (Some [("c", VOther Chan)])) as (Hfail & _).
  destruct (Hfail _ eq_refl) as (Hbody & Hdo).
  destruct (C8_json_failure_gives_empty_body Sprintf_s Marshal_flat NewRequest_check_plain
              (Some [("n", VInt Int 3)])) as (_ & Hok).
  split; [reflexivity|]. split; [exact Hbody|]. split; [|exact (Hok _ eq_refl)].
  rewrite Hdo. vm_compute. reflexivity.
Defined.

Lemma C9_duration_witness :
  do Sprintf_s Marshal_flat NewRequest_check_plain PostMethod FormType "http://x/y"
     (Some [("k", VString "v")]) None 1
  = do Sprintf_s Marshal_flat NewRequest_check_plain PostMethod FormType "http://x/y"
       (Some [("k", VString "v")]) None (60 * http.Second)
  /\ exists req,
       do Sprintf_s Marshal_flat NewRequest_check_plain PostMethod FormType "http://x/y"
          (Some [("k", VString "v")]) None 1 = Do clientPool req
       /\ http.Timeout clientPool = 30000000000%Z.
Proof.
  destruct (C9_duration_has_no_effect Sprintf_s Marshal_flat NewRequest_check_plain
              PostMethod FormType "http://x/y" (Some [("k", VString "v")]) None
              1 (60 * http.Second)) as (Hdo & _ & _ & _ & _ & Hclient).
  split; [exact Hdo|].
  eexists. split; [vm_compute; reflexivity|].
  match goal with
  | |- http.Timeout ?c = _ =>
      destruct (Hclient c _ ltac:(vm_compute; reflexivity)) as (_ & -> & _)
  end.
  reflexivity.
Defined.

Lemma C10_auto_get_witness :
  Auto Sprintf_s Marshal_flat NewRequest_check_plain GetMethod JsonType "http://x/y"
    (Some [("q", VString "v")]) (Some example_header) 9
  = Do clientPool {| http.Method := "GET"; http.URL := "http://x/y?q=v";
                     http.Body := ""; http.Header_ := Some ∅ |}.
Proof.
  destruct (C10_auto_get_drops_header_and_duration Sprintf_s Marshal_flat
              NewRequest_check_plain JsonType "http://x/y" (Some [("q", VString "v")])
              (Some example_header) 9) as (HGet & _ & Hreq).
  rewrite HGet. vm_compute. reflexivity.
Defined.

(** * Further properties of the encoder *)

(** An induction on parameter maps whose hypothesis covers the maps
    nested in the entries. *)
Lemma params_nested_ind (Q : H -> Prop) :
  (forall m,
     Forall (fun e => match e.2 with VMap m' => Q m' | _ => True end) m -> Q m) ->
  forall m, Q m.
Proof.
  intros Hstep m.
  assert (HP : forall v, match v with VMap m' => Q m' | _ => True end).
  { induction v as [s|b|m' IH|t n|o] using value_nested_ind; try exact I.
    apply Hstep, IH. }
  apply (HP (VMap m)).
Qed.

Lemma all_bytes_append p a b :
  all_bytes p (a +:+ b) = all_bytes p a && all_bytes p b.
Proof.
  induction a as [|c a IH]; [reflexivity|].
  rewrite append_cons. simpl. now rewrite IH, andb_assoc.
Qed.

Lemma all_bytes_QueryEscape s : all_bytes query_byte (url.QueryEscape s) = true.
Proof.
  induction s as [|c s IH]; [reflexivity|].
  rewrite url_facts.QueryEscape_cons, all_bytes_append, IH, andb_true_r.
  destruct c as [[] [] [] [] [] [] [] []]; reflexivity.
Qed.

Lemma all_bytes_pairs_text L : all_bytes query_byte (url.pairs_text L) = true.
Proof.
  assert (Hp : forall p, all_bytes query_byte (url.pair_text p) = true).
  { intros p. unfold url.pair_text.
    now rewrite !all_bytes_append, !all_bytes_QueryEscape. }
  assert (Ht : forall L, all_bytes query_byte (url.tail_text L) = true).
  { induction L0 as [|p L0 IH]; [reflexivity|]. simpl.
    now rewrite !all_bytes_append, Hp, IH. }
  destruct L as [|p L]; [reflexivity|]. simpl.
  now rewrite all_bytes_append, Hp, Ht.
Qed.

Section EncoderOutput.

Variable Sprintf : string -> string -> string.

(** The text a map appends for its nested maps, entry by entry. *)
Lemma nested_fragments_cons k v params format :
  nested_fragments Sprintf ((k, v) :: params) format
  = default "" (nested_fragment Sprintf format (k, v))
      +:+ nested_fragments Sprintf params format.
Proof.
  unfold nested_fragments. rewrite omap_cons.
  destruct (nested_fragment Sprintf format (k, v)); reflexivity.
Qed.

Lemma all_bytes_queryParams params :
  forall format, all_bytes query_byte (queryParams Sprintf params format) = true.
Proof.
  induction params as [params IH] using params_nested_ind. intros format.
  rewrite queryParams_split, all_bytes_append, url_facts.Encode_pairs_text,
    all_bytes_pairs_text, andb_true_r.
  induction IH as [|[k v] params Hv _ IHparams]; [reflexivity|].
  rewrite nested_fragments_cons, all_bytes_append, IHparams, andb_true_r.
  destruct v; try reflexivity.
  simpl in Hv. unfold nested_fragment. simpl.
  now rewrite all_bytes_append, Hv.
Qed.

End EncoderOutput.

(** ** Decoding a query piece by piece *)

Module parse_facts.
Import url url_facts.

Lemma parseQuery_step fuel m err query :
  query <> "" ->
  parseQuery (S fuel) m err query
  = parseQuery fuel (parse_key m err (Cut "&" query).1.1).1
      (parse_key m err (Cut "&" query).1.1).2 (Cut "&" query).1.2.
Proof.
  intros Hq. simpl.
  destruct (Nat.eqb_spec (String.length query) 0) as [Hlen|_];
    [destruct query; [congruence | discriminate]|].
  destruct (Cut "&" query) as [[key query'] found]. simpl.
  unfold parse_key.
  destruct (ContainsByte ";" key); [reflexivity|].
  destruct (String.length key =? 0)%nat; [reflexivity|].
  destruct (Cut "=" key) as [[key' value] found'].
  destruct (QueryUnescape key'); [|reflexivity].
  destruct (QueryUnescape value); reflexivity.
Qed.

Lemma parse_from_empty m err : parse_from m err "" = (m, err).
Proof. reflexivity. Qed.

Lemma parse_from_step m err query :
  query <> "" ->
  parse_from m err query
  = parse_from (parse_key m err (Cut "&" query).1.1).1
      (parse_key m err (Cut "&" query).1.1).2 (Cut "&" query).1.2.
Proof.
  intros Hq. unfold parse_from.
  destruct query as [|c query]; [congruence|].
  change (String.length (String c query)) with (S (String.length query)).
  rewrite parseQuery_step by assumption.
  apply parseQuery_fuel_enough; [|reflexivity].
  pose proof (Cut_shorter "&" (String c query) Hq) as Hs. simpl in Hs. simpl. lia.
Qed.

(** What [Cut] returns, read backwards. *)
Lemma Cut_spec sep s a b f :
  Cut sep s = (a, b, f) ->
  ContainsByte sep a = false
  /\ (if f then s = a +:+ String sep b else s = a /\ b = "").
Proof.
  revert a b f. induction s as [|c s IH]; intros a b f HCut; simpl in HCut.
  - injection HCut as <- <- <-. auto.
  - destruct (Ascii.eqb_spec c sep) as [->|Hne].
    + injection HCut as <- <- <-. auto.
    + destruct (Cut sep s) as [[a' b'] f']. injection HCut as <- <- <-.
      destruct (IH _ _ _ eq_refl) as [Ha Hs]. split.
      * simpl. rewrite Ha. now destruct (Ascii.eqb_spec c sep).
      * destruct f'; [now rewrite append_cons, <- Hs|].
        destruct Hs as [-> ->]. auto.
Qed.

(** A query followed by a separator and a second query decodes as the
    first and then the second. *)
Lemma parse_from_amp q1 :
  forall m err q2,
    parse_from m err (q1 +:+ String "&" q2)
    = parse_from (parse_from m err q1).1 (parse_from m err q1).2 q2.
Proof.
  induction q1 as [q1 IH] using (induction_ltof1 _ String.length).
  intros m err q2. destruct (string_dec q1 "") as [->|Hq1].
  - rewrite append_nil_l, parse_from_empty, parse_from_step by discriminate.
    reflexivity.
  - rewrite (parse_from_step m err q1) by assumption.
    rewrite parse_from_step by (destruct q1; [congruence | discriminate]).
    pose proof (Cut_shorter "&" q1 Hq1) as Hshort.
    destruct (Cut "&" q1) as [[a b] f] eqn:HCut.
    destruct (Cut_spec _ _ _ _ _ HCut) as [Ha Hs]. cbn [fst snd] in Hshort |- *.
    destruct f.
    + rewrite Hs, append_assoc, append_cons, (Cut_found "&") by assumption.
      cbn [fst snd]. apply IH. unfold ltof. lia.
    + destruct Hs as [<- ->]. rewrite (Cut_found "&") by assumption.
      cbn [fst snd]. now rewrite parse_from_empty.
Qed.

Lemma decodes_to_empty : decodes_to "" [].
Proof. intros m err. reflexivity. Qed.

Lemma decodes_to_amp q1 q2 L1 L2 :
  decodes_to q1 L1 -> decodes_to q2 L2 ->
  decodes_to ((q1 +:+ "&") +:+ q2) (L1 ++ L2).
Proof.
  intros H1 H2 m err.
  rewrite append_assoc. change ("&" +:+ q2) with (String "&" q2).
  rewrite parse_from_amp, H1. simpl. now rewrite H2, foldl_app.
Qed.

Lemma decodes_to_Encode v : decodes_to (Encode v) (pairs v).
Proof.
  intros m err. rewrite Encode_pairs_text. unfold parse_from.
  destruct (pairs v) as [|p L]; [reflexivity|].
  simpl pairs_text. rewrite parseQuery_pairs; [reflexivity|].
  rewrite length_append.
  pose proof (pair_text_length p). pose proof (tail_text_length L). lia.
Qed.

End parse_facts.

(** ** What a collector holds *)

Module content_facts.
Import url url_facts.

Lemma flat_map_keys (v : Values) (l : list (string * list string)) :
  (forall k x, (k, x) ∈ l -> v !! k = Some x) ->
  flat_map (fun k => map (pair k) (default [] (v !! k))) l.*1
  = flat_map (fun e => map (pair e.1) e.2) l.
Proof.
  induction l as [|[k x] l IH]; intros Hl; [reflexivity|].
  rewrite fmap_cons. simpl. rewrite (Hl k x) by left. simpl.
  rewrite IH; [reflexivity|]. intros k' x' Hin. apply Hl. now right.
Qed.

Lemma pairs_content (v : Values) : pairs v ≡ₚ content v.
Proof.
  unfold pairs, content, sorted_keys.
  rewrite merge_sort_Permutation, flat_map_keys; [reflexivity|].
  intros k x. apply elem_of_map_to_list.
Qed.

Lemma content_insert_fresh (v : Values) k l :
  v !! k = None -> content (<[k := l]> v) ≡ₚ map (pair k) l ++ content v.
Proof.
  intros Hk. unfold content. now rewrite map_to_list_insert.
Qed.

Lemma content_Add k x (v : Values) : content (Add k x v) ≡ₚ (k, x) :: content v.
Proof.
  unfold Add. destruct (v !! k) as [l|] eqn:Hk; simpl.
  - rewrite <- insert_delete_eq, content_insert_fresh by apply lookup_delete_eq.
    rewrite <- (insert_delete_id v k l Hk) at 2.
    rewrite content_insert_fresh by apply lookup_delete_eq.
    rewrite map_app. simpl. rewrite <- app_assoc. simpl.
    now rewrite <- Permutation_middle.
  - now rewrite content_insert_fresh.
Qed.

Lemma content_foldl L (m : Values) : content (foldl add_pair m L) ≡ₚ L ++ content m.
Proof.
  revert m. induction L as [|[k x] L IH]; intros m; [reflexivity|].
  simpl. rewrite IH. unfold add_pair at 1. simpl. rewrite content_Add.
  now rewrite <- Permutation_middle.
Qed.

(** A collector filled from nothing holds what was added to it. *)
Lemma pairs_foldl L : pairs (foldl add_pair ∅ L) ≡ₚ L.
Proof.
  rewrite pairs_content, content_foldl. unfold content.
  now rewrite map_to_list_empty, app_nil_r.
Qed.

End content_facts.

(** ** Decoding the output of the encoder *)

Section DecodeOutput.

Import url url_facts parse_facts content_facts.

Variable Sprintf : string -> string -> string.

Lemma flatten_value_VMap nk m :
  flatten_value Sprintf nk (VMap m) = flatten Sprintf m (nk +:+ "[%s]").
Proof. reflexivity. Qed.

Lemma flatten_cons k v params format :
  flatten Sprintf ((k, v) :: params) format
  = (flatten_value Sprintf (effective_key Sprintf format k) v
       ++ flatten Sprintf params format)%list.
Proof. reflexivity. Qed.

(** The output decodes, without error, to the simple values of the map
    at every depth, in some order. *)
Lemma queryParams_decodes params :
  forall format,
    exists L, L ≡ₚ flatten Sprintf params format
              /\ decodes_to (queryParams Sprintf params format) L.
Proof.
  induction params as [params IH] using params_nested_ind. intros format.
  assert (Hnested : exists Ln,
             Ln ++ omap (simple_pair Sprintf format) params ≡ₚ flatten Sprintf params format
             /\ forall q2 L2, decodes_to q2 L2 ->
                  decodes_to (nested_fragments Sprintf params format +:+ q2) (Ln ++ L2)).
  { induction IH as [|[k v] params Hv _ IHparams].
    - exists []. split; [reflexivity|]. intros q2 L2 H2. exact H2.
    - destruct IHparams as (Ln & Hperm & Hdec).
      destruct v as [s|b|m|t n|o]; simpl in Hv;
        try (exists Ln; split;
             [ rewrite omap_cons; simpl; rewrite <- Hperm;
               try reflexivity; now rewrite <- Permutation_middle
             | intros q2 L2 H2; rewrite nested_fragments_cons; apply Hdec, H2 ]).
      destruct (Hv (effective_key Sprintf format k +:+ "[%s]")) as (Lm & Hm & Hdm).
      exists (Lm ++ Ln)%list. split.
      + rewrite omap_cons, flatten_cons, flatten_value_VMap.
        change (simple_pair Sprintf format (k, VMap m)) with (@None (string * string)).
        rewrite <- app_assoc, Hperm, Hm. reflexivity.
      + intros q2 L2 H2. rewrite nested_fragments_cons. unfold nested_fragment. simpl.
        rewrite append_assoc, <- app_assoc. apply decodes_to_amp; [exact Hdm|].
        apply Hdec, H2. }
  destruct Hnested as (Ln & Hperm & Hdec).
  exists (Ln ++ pairs (simple_values Sprintf params format))%list. split.
  - rewrite <- Hperm. unfold simple_values. now rewrite pairs_foldl.
  - rewrite queryParams_split. apply Hdec, decodes_to_Encode.
Qed.

End DecodeOutput.

Section EncoderExtras.

Import url url_facts parse_facts content_facts.

Variable Sprintf : string -> string -> string.

Lemma ContainsByte_all_bytes p c s :
  all_bytes p s = true -> p c = false -> ContainsByte c s = false.
Proof.
  intros Hs Hc. induction s as [|d s IH]; [reflexivity|].
  simpl in *. apply andb_true_iff in Hs as [Hd Hs]. rewrite (IH Hs), orb_false_r.
  destruct (Ascii.eqb_spec d c) as [->|]; [congruence | reflexivity].
Qed.

(** X1: the output of the encoder, for every map and format, is made
    of unreserved bytes, [%], [+], [=] and [&] only; no other byte, such
    as a bracket, a space, [?], [#] or [/], occurs in it. *)
Theorem X1_output_alphabet (params : H) (format : string) :
  all_bytes query_byte (queryParams Sprintf params format) = true
  /\ (forall c, query_byte c = false ->
        ContainsByte c (queryParams Sprintf params format) = false)
  /\ Forall (fun c => ContainsByte c (queryParams Sprintf params format) = false)
       ["["; "]"; " "; "?"; "#"; "/"; ";"; ":"; "@"; "$"; ","]%char.
Proof.
  pose proof (all_bytes_queryParams Sprintf params format) as Hall.
  split; [exact Hall|]. split.
  - intros c Hc. now apply (ContainsByte_all_bytes query_byte).
  - repeat constructor; now apply (ContainsByte_all_bytes query_byte).
Qed.

(** X2: decoding the output of the encoder never fails, for any map
    and format, and yields the simple values of the map at every depth
    under their effective keys, added in some order; when these keys are
    pairwise different the result is the map from each key to its one
    text. *)
Theorem X2_output_decodes_to_the_leaves (params : H) (format : string) :
  (exists L,
      L ≡ₚ flatten Sprintf params format
      /\ ParseQuery (queryParams Sprintf params format) = (foldl add_pair ∅ L, None))
  /\ (NoDup (flatten Sprintf params format).*1 ->
      ParseQuery (queryParams Sprintf params format)
      = (list_to_map ((fun p => (p.1, [p.2])) <$> flatten Sprintf params format), None)).
Proof.
  destruct (queryParams_decodes Sprintf params format) as (L & Hperm & Hdec).
  split; [exists L; split; [exact Hperm | apply Hdec]|].
  intros Hnd. unfold ParseQuery. fold (parse_from ∅ None (queryParams Sprintf params format)).
  rewrite Hdec. f_equal.
  rewrite foldl_add_pair_fresh.
  - rewrite (right_id_L ∅ (∪)). apply list_to_map_proper.
    + rewrite <- list_fmap_compose. now rewrite Hperm.
    + now rewrite Hperm.
  - now rewrite Hperm.
  - intros. apply lookup_empty.
Qed.

Lemma paths_value_VMap key m : paths_value key (VMap m) = paths_under key m.
Proof. reflexivity. Qed.

Lemma map_keys_plain_value_VMap m :
  map_keys_plain_value (VMap m) = map_keys_plain m.
Proof. reflexivity. Qed.

Lemma effective_key_format nk k :
  effective_key Sprintf (nk +:+ "[%s]") k = Sprintf (nk +:+ "[%s]") k.
Proof.
  unfold effective_key.
  destruct (Nat.eqb_spec (String.length (nk +:+ "[%s]")) 0) as [Hlen|_]; [|reflexivity].
  rewrite length_append in Hlen. simpl in Hlen. lia.
Qed.

Lemma ContainsByte_bracket nk k :
  ContainsByte "%" nk = false -> ContainsByte "%" k = false ->
  ContainsByte "%" (nk +:+ "[" +:+ k +:+ "]") = false.
Proof.
  intros Hnk Hk. now rewrite !Contains_append, Hnk, Hk.
Qed.

(** Below a key without [%], the effective keys are the bracket
    compositions. *)
Lemma flatten_paths_under (m : H) :
  bracket_law Sprintf ->
  forall nk,
    ContainsByte "%" nk = false ->
    map_keys_plain m = true ->
    flatten Sprintf m (nk +:+ "[%s]") = paths_under nk m.
Proof.
  intros Hlaw. induction m as [m IH] using params_nested_ind.
  intros nk Hnk. induction IH as [|[k v] m Hv _ IHm]; intros Hplain; [reflexivity|].
  simpl in Hplain. apply andb_true_iff in Hplain as [Hkv Hplain].
  apply andb_true_iff in Hkv as [Hk Hpv].
  rewrite flatten_cons, effective_key_format, Hlaw, (IHm Hplain) by assumption.
  simpl paths_under. f_equal.
  destruct v as [s|b|m'|t n|o]; try reflexivity.
  rewrite flatten_value_VMap, paths_value_VMap. simpl in Hv, Hk.
  apply Hv; [|exact Hpv].
  apply ContainsByte_bracket; [assumption|]. now apply negb_true_iff.
Qed.

Lemma flatten_paths (params : H) :
  bracket_law Sprintf ->
  map_keys_plain params = true ->
  flatten Sprintf params "" = paths params.
Proof.
  intros Hlaw. induction params as [|[k v] params IH]; intros Hplain; [reflexivity|].
  simpl in Hplain. apply andb_true_iff in Hplain as [Hkv Hplain].
  apply andb_true_iff in Hkv as [Hk Hpv].
  rewrite flatten_cons, (IH Hplain). simpl paths. f_equal.
  change (effective_key Sprintf "" k) with k.
  destruct v as [s|b|m|t n|o]; try reflexivity.
  rewrite flatten_value_VMap, paths_value_VMap. simpl in Hk.
  apply flatten_paths_under; [assumption | now apply negb_true_iff | exact Hpv].
Qed.

(** X3: when no key of a nested map holds a [%], the output for the
    empty format decodes to the simple values of the map under keys in
    bracket notation: [k] at the top level and [parent[k]] below the key
    [parent], at every depth. *)
Theorem X3_keys_are_bracket_paths (params : H) :
  bracket_law Sprintf ->
  map_keys_plain params = true ->
  exists L,
    L ≡ₚ paths params
    /\ ParseQuery (queryParams Sprintf params "") = (foldl add_pair ∅ L, None).
Proof.
  intros Hlaw Hplain.
  destruct (queryParams_decodes Sprintf params "") as (L & Hperm & Hdec).
  exists L. split; [|apply Hdec].
  now rewrite Hperm, flatten_paths.
Qed.

(** Visiting a map in another order permutes its simple values. *)
Lemma reordered_flatten m m' :
  reordered m m' ->
  forall format, flatten Sprintf m format ≡ₚ flatten Sprintf m' format
with reordered_value_flatten v v' :
  reordered_value v v' ->
  forall nk, flatten_value Sprintf nk v ≡ₚ flatten_value Sprintf nk v'.
Proof.
  - intros Hr. destruct Hr as [|k v v' m m' Hv Hm|[k1 v1] [k2 v2] m|m1 m2 m3 H12 H23];
      intros format.
    + reflexivity.
    + rewrite !flatten_cons.
      now rewrite (reordered_value_flatten _ _ Hv), (reordered_flatten _ _ Hm).
    + rewrite !flatten_cons, !app_assoc.
      apply Permutation_app_tail, Permutation_app_comm.
    + now rewrite (reordered_flatten _ _ H12), (reordered_flatten _ _ H23).
  - intros Hr. destruct Hr as [v|m m' Hm]; intros nk.
    + reflexivity.
    + rewrite !flatten_value_VMap. apply (reordered_flatten _ _ Hm).
Qed.

(** X4: the decoded output does not depend on the order in which the
    maps are visited, at any depth: when the effective keys of the
    simple values are pairwise different, the output for a map and the
    output for the same map in another order decode to the same values
    (the two texts may differ). *)
Theorem X4_decoded_output_ignores_the_order (params params' : H) (format : string) :
  reordered params params' ->
  NoDup (flatten Sprintf params format).*1 ->
  ParseQuery (queryParams Sprintf params' format)
  = ParseQuery (queryParams Sprintf params format).
Proof.
  intros Hr Hnd.
  pose proof (reordered_flatten _ _ Hr format) as Hperm.
  destruct (queryParams_decodes Sprintf params format) as (L & HL & Hdec).
  destruct (queryParams_decodes Sprintf params' format) as (L' & HL' & Hdec').
  unfold ParseQuery.
  fold (parse_from ∅ None (queryParams Sprintf params format)).
  fold (parse_from ∅ None (queryParams Sprintf params' format)).
  rewrite Hdec, Hdec'. f_equal.
  assert (HLL : L' ≡ₚ L) by now rewrite HL, HL', Hperm.
  rewrite !foldl_add_pair_fresh; try (intros; apply lookup_empty).
  - f_equal. apply list_to_map_proper.
    + rewrite <- list_fmap_compose. now rewrite HLL, HL.
    + now rewrite HLL.
  - now rewrite HL.
  - now rewrite HLL, HL.
Qed.

Lemma stringify_value_VMap m : stringify_value (VMap m) = VMap (stringify m).
Proof. reflexivity. Qed.

Lemma switch_value_stringify v :
  forall nk st,
    switch_value Sprintf nk (stringify_value v) st = switch_value Sprintf nk v st.
Proof.
  induction v as [s|b|m IH|t n|o] using value_nested_ind; intros nk st;
    try reflexivity.
  rewrite stringify_value_VMap, !switch_value_VMap. do 2 f_equal.
  unfold queryParams. f_equal. generalize (∅ : Values, ""). generalize (nk +:+ "[%s]").
  induction IH as [|[k v] m Hv _ IHm]; intros fmt st'; [reflexivity|].
  simpl in Hv. simpl stringify. simpl range_params. rewrite Hv. apply IHm.
Qed.

(** X11: the output depends on a simple value only through its text:
    an integer and the string of its decimal digits, or a byte sequence
    and the string of the same bytes, give the same output, at every
    depth, so the types of the values cannot be told from the output. *)
Theorem X11_output_keeps_only_the_text (params : H) (format k : string) :
  queryParams Sprintf (stringify params) format = queryParams Sprintf params format
  /\ (forall t n, queryParams Sprintf [(k, VInt t n)] format
                  = queryParams Sprintf [(k, VString (decimal n))] format)
  /\ (forall b, queryParams Sprintf [(k, VBytes b)] format
                = queryParams Sprintf [(k, VString b)] format).
Proof.
  split; [|split; reflexivity].
  unfold queryParams. f_equal. generalize (∅ : Values, "").
  induction params as [|[k' v] params IH]; intros st; [reflexivity|].
  simpl stringify. simpl range_params. rewrite switch_value_stringify. apply IH.
Qed.

Lemma nested_fragments_empty params format :
  nested_fragments Sprintf params format = "" ->
  omap (nested_fragment Sprintf format) params = [].
Proof.
  unfold nested_fragments.
  destruct (omap (nested_fragment Sprintf format) params) as [|f fs] eqn:Hfs;
    [reflexivity|].
  assert (Hin : f ∈ omap (nested_fragment Sprintf format) params)
    by (rewrite Hfs; left).
  apply list_elem_of_omap in Hin as ([k v] & _ & Hkv).
  unfold nested_fragment in Hkv. simpl in Hkv.
  destruct v; try discriminate. injection Hkv as <-.
  simpl. intros Hnil. apply (f_equal String.length) in Hnil.
  rewrite !length_append in Hnil. simpl in Hnil. lia.
Qed.

Lemma append_empty a b : a +:+ b = "" -> a = "" /\ b = "".
Proof.
  destruct a; [auto|]. rewrite append_cons. discriminate.
Qed.

Lemma Encode_empty (v : Values) : Encode v = "" -> pairs v = [].
Proof.
  rewrite Encode_pairs_text. destruct (pairs v) as [|p L]; [reflexivity|].
  simpl. intros Hnil. apply append_empty in Hnil as [Hp _].
  pose proof (pair_text_length p) as Hl. rewrite Hp in Hl. simpl in Hl. lia.
Qed.

Lemma unsupported_entries (params : H) format :
  omap (nested_fragment Sprintf format) params = [] ->
  omap (simple_pair Sprintf format) params = [] ->
  forallb (fun e => negb (supported e.2)) params = true.
Proof.
  induction params as [|[k v] params IH]; [reflexivity|].
  rewrite !omap_cons. unfold nested_fragment at 1, simple_pair at 1. simpl.
  destruct v; try discriminate; auto.
Qed.

Lemma prune_unsupported (params : H) :
  forallb (fun e => negb (supported e.2)) params = true -> prune params = [].
Proof.
  induction params as [|[k v] params IH]; [reflexivity|]. simpl.
  intros Hall. apply andb_true_iff in Hall as [Hv Hall].
  apply negb_true_iff in Hv. rewrite Hv. auto.
Qed.

(** X5: the output is empty exactly when no entry of the map is a
    string, a byte sequence, an integer or a nested map; a nested map,
    even an empty one, makes it non-empty.  So the URL of a GET request
    ends with the bare [?] exactly for such maps, the nil map among
    them. *)
Theorem X5_empty_output (params : H) (format url : string) :
  (queryParams Sprintf params format = ""
   <-> forallb (fun e => negb (supported e.2)) params = true)
  /\ (getRequestURL Sprintf url (Some params) = url +:+ "?"
      <-> forallb (fun e => negb (supported e.2)) params = true)
  /\ getRequestURL Sprintf url None = url +:+ "?".
Proof.
  assert (Hiff : forall format,
             queryParams Sprintf params format = ""
             <-> forallb (fun e => negb (supported e.2)) params = true).
  { intros fmt. split.
    - rewrite queryParams_split. intros Hnil.
      apply append_empty in Hnil as [Hn He].
      apply nested_fragments_empty in Hn. apply Encode_empty in He.
      apply (unsupported_entries params fmt Hn).
      apply Permutation_nil. rewrite <- He. unfold simple_values.
      apply pairs_foldl.
    - intros Hall. unfold queryParams.
      rewrite <- range_params_prune, (prune_unsupported params Hall). reflexivity. }
  split; [apply Hiff|]. split; [|reflexivity].
  rewrite <- (Hiff ""). unfold getRequestURL, entries. simpl default. split.
  - intros Heq. apply (f_equal (fun s => String.length s)) in Heq.
    rewrite !length_append in Heq. simpl in Heq.
    destruct (queryParams Sprintf params ""); [reflexivity | simpl in Heq; lia].
  - now intros ->.
Qed.

End EncoderExtras.

(** * Reading responses *)

Lemma ReadAll_chunks l tail :
  ReadAll (chunks l tail)
  = (foldr String.append (ReadAll tail).1 l, (ReadAll tail).2).
Proof.
  induction l as [|bs l IH].
  - simpl. now destruct (ReadAll tail).
  - change (ReadAll (chunks (bs :: l) tail))
      with (let '(data, err) := ReadAll (chunks l tail) in (bs +:+ data, err)).
    rewrite IH. reflexivity.
Qed.

(** Every stream is a list of chunks ended by the end of the stream or
    by an error. *)
Lemma stream_cases (r : stream) :
  exists l, r = chunks l EOF \/ exists e, r = chunks l (ReadError e).
Proof.
  induction r as [|bs r [l [-> | [e ->]]]|e].
  - exists []. now left.
  - exists (bs :: l). now left.
  - exists (bs :: l). right. now exists e.
  - exists []. right. now exists e.
Qed.

Lemma takeResponse_eof code l :
  takeResponse {| StatusCode := code; Body_ := chunks l EOF |}
  = ((Some {| Code := code; Body := foldr String.append "" l |}, None), [EvReadAll]).
Proof.
  unfold takeResponse, io_ReadAll, bind, log, ret. simpl.
  rewrite ReadAll_chunks. reflexivity.
Qed.

Lemma takeResponse_error code l e :
  takeResponse {| StatusCode := code; Body_ := chunks l (ReadError e) |}
  = ((None, Some e), [EvReadAll]).
Proof.
  unfold takeResponse, io_ReadAll, bind, log, ret. simpl.
  rewrite ReadAll_chunks. reflexivity.
Qed.

Lemma takeResponse_log resp : (takeResponse resp).2 = [EvReadAll].
Proof.
  unfold takeResponse, io_ReadAll, bind, log, ret. simpl.
  destruct (ReadAll (Body_ resp)) as [bs [e|]]; reflexivity.
Qed.

(** X6: [takeResponse] reads the body once and to its end.  When the
    stream ends normally it returns the status code, whatever it is, and
    all the bytes of the body in order, with no error; when the stream
    breaks it returns the error and no response, and the bytes read
    before the error are dropped.  One of the two results is always nil
    and the other is not. *)
Theorem X6_takeResponse_all_or_nothing (code : Z) (l : list string) (e : error)
    (resp : http_Response) :
  takeResponse {| StatusCode := code; Body_ := chunks l EOF |}
  = ((Some {| Code := code; Body := foldr String.append "" l |}, None), [EvReadAll])
  /\ takeResponse {| StatusCode := code; Body_ := chunks l (ReadError e) |}
     = ((None, Some e), [EvReadAll])
  /\ ((exists r, (takeResponse resp).1 = (Some r, None) /\ Code r = StatusCode resp)
      \/ (exists e', (takeResponse resp).1 = (None, Some e'))).
Proof.
  split; [apply takeResponse_eof|]. split; [apply takeResponse_error|].
  destruct resp as [code' body].
  destruct (stream_cases body) as [l' [-> | [e' ->]]].
  - left. rewrite takeResponse_eof. eauto.
  - right. rewrite takeResponse_error. eauto.
Qed.

Section ResponseFacts.

Variable network : http.Client -> http.Request -> do_result.
Variable Sprintf : string -> string -> string.
Variable Marshal : option H -> string + error.
Variable NewRequest_check : string -> string -> option error.

Lemma PostForm_eq url data header requestTimeout :
  PostForm network Sprintf Marshal NewRequest_check url data header requestTimeout
  = read_and_close network
      (Form Sprintf Marshal NewRequest_check url data header requestTimeout).
Proof. reflexivity. Qed.

Lemma PostJson_eq url params header duration :
  PostJson network Sprintf Marshal NewRequest_check url params header duration
  = read_and_close network
      (Json Sprintf Marshal NewRequest_check url params header duration).
Proof. reflexivity. Qed.

Lemma FastGet_eq url data :
  FastGet network Sprintf NewRequest_check url data
  = read_and_close network (Get Sprintf NewRequest_check url data).
Proof. reflexivity. Qed.

(** The three runs of a wrapped call. *)
Lemma read_and_close_cases (r : result) :
  match r with
  | Err e => read_and_close network r = ((None, Some e), [])
  | Do c req =>
      match network c req with
      | DoErr e _ => read_and_close network r = ((None, Some e), [EvDo c req])
      | DoOk resp =>
          read_and_close network r
          = ((takeResponse resp).1, [EvDo c req; EvReadAll; EvClose])
      end
  end.
Proof.
  destruct r as [e|c req]; [reflexivity|].
  unfold read_and_close, perform, bind, log, ret.
  destruct (network c req) as [resp|e resp]; [|reflexivity].
  pose proof (takeResponse_log resp) as Hlog.
  destruct (takeResponse resp) as [out tr]. simpl in Hlog. subst tr. reflexivity.
Qed.

(** The calls a wrapped call makes: at most one request, and a read
    followed by a close exactly when a response came without error. *)
Lemma read_and_close_log (r : result) :
  let tr := (read_and_close network r).2 in
  length (filter (fun e => is_EvDo e = true) tr) <= 1
  /\ (tr = []
      \/ (exists c req, tr = [EvDo c req])
      \/ (exists c req, tr = [EvDo c req; EvReadAll; EvClose]))
  /\ (EvClose ∈ tr <-> exists c req resp, r = Do c req /\ network c req = DoOk resp)
  /\ (EvReadAll ∈ tr <-> EvClose ∈ tr).
Proof.
  pose proof (read_and_close_cases r) as Hcases. cbv zeta.
  destruct r as [e|c req].
  - rewrite Hcases. simpl. split; [lia|]. split; [auto|]. split; split.
    + intros Hin. now apply elem_of_nil in Hin.
    + intros (c & req & resp & Hr & _). discriminate.
    + intros Hin. now apply elem_of_nil in Hin.
    + intros Hin. now apply elem_of_nil in Hin.
  - destruct (network c req) as [resp|e resp] eqn:Hnet; rewrite Hcases; simpl.
    + split; [reflexivity|]. split; [eauto 6|]. split; split; intros _.
      * eauto.
      * apply list_elem_of_In. simpl. auto.
      * apply list_elem_of_In. simpl. auto.
      * apply list_elem_of_In. simpl. auto.
    + assert (Hno : forall ev, ev <> EvDo c req -> ev ∈ [EvDo c req] -> False).
      { intros ev Hev Hin. apply list_elem_of_In in Hin.
        destruct Hin as [Heq|[]]. congruence. }
      split; [reflexivity|]. split; [eauto 6|]. split; split.
      * intros Hin. exfalso. now apply (Hno EvClose).
      * intros (c' & req' & resp' & [= <- <-] & Hnet'). congruence.
      * intros Hin. exfalso. now apply (Hno EvReadAll).
      * intros Hin. exfalso. now apply (Hno EvClose).
Qed.

(** The results of a wrapped call. *)
Lemma read_and_close_result (r : result) :
  (forall e, r = Err e -> (read_and_close network r).1 = (None, Some e))
  /\ (forall c req e resp,
        r = Do c req -> network c req = DoErr e resp ->
        (read_and_close network r).1 = (None, Some e))
  /\ (forall c req code l,
        r = Do c req ->
        network c req = DoOk {| StatusCode := code; Body_ := chunks l EOF |} ->
        (read_and_close network r).1
        = (Some {| Code := code; Body := foldr String.append "" l |}, None))
  /\ (forall c req code l e,
        r = Do c req ->
        network c req = DoOk {| StatusCode := code; Body_ := chunks l (ReadError e) |} ->
        (read_and_close network r).1 = (None, Some e))
  /\ ((exists resp, (read_and_close network r).1 = (Some resp, None))
      \/ (exists e, (read_and_close network r).1 = (None, Some e))).
Proof.
  pose proof (read_and_close_cases r) as Hcases.
  split; [intros e ->; now rewrite Hcases|].
  split; [intros c req e resp -> Hnet; rewrite Hnet in Hcases; now rewrite Hcases|].
  split; [intros c req code l -> Hnet; rewrite Hnet in Hcases;
          now rewrite Hcases, takeResponse_eof|].
  split; [intros c req code l e -> Hnet; rewrite Hnet in Hcases;
          now rewrite Hcases, takeResponse_error|].
  destruct r as [e|c req]; [right; rewrite Hcases; eauto|].
  destruct (network c req) as [[code body]|e resp]; rewrite Hcases; simpl; [|eauto].
  destruct (stream_cases body) as [l [-> | [e ->]]].
  - left. rewrite takeResponse_eof. eauto.
  - right. rewrite takeResponse_error. eauto.
Qed.

(** X7: [PostForm], [PostJson] and [FastGet] send at most one request
    and never a second one; they read the body and then close it, once
    each, exactly when [Do] returned a response without error (so also
    when the read then fails), and touch no body otherwise. *)
Theorem X7_body_is_read_then_closed
    (url : string) (params : option H) (header : option http.Header) (duration : Z) :
  Forall (fun run : result * M (option Response * option error) =>
            let tr := run.2.2 in
            length (filter (fun e => is_EvDo e = true) tr) <= 1
            /\ (tr = []
                \/ (exists c req, tr = [EvDo c req])
                \/ (exists c req, tr = [EvDo c req; EvReadAll; EvClose]))
            /\ (EvClose ∈ tr
                <-> exists c req resp, run.1 = Do c req /\ network c req = DoOk resp)
            /\ (EvReadAll ∈ tr <-> EvClose ∈ tr))
    [(Form Sprintf Marshal NewRequest_check url params header duration,
      PostForm network Sprintf Marshal NewRequest_check url params header duration);
     (Json Sprintf Marshal NewRequest_check url params header duration,
      PostJson network Sprintf Marshal NewRequest_check url params header duration);
     (Get Sprintf NewRequest_check url params,
      FastGet network Sprintf NewRequest_check url params)].
Proof.
  repeat (apply List.Forall_cons; [cbn [fst snd]|]); [| | |apply List.Forall_nil];
    rewrite ?PostForm_eq, ?PostJson_eq, ?FastGet_eq; apply read_and_close_log.
Qed.

(** X8: [PostForm], [PostJson] and [FastGet] return either a response
    or an error, never both and never neither.  The error is that of the
    request's construction, else that of [Do], else that of reading the
    body; a response is returned for every status code, 4xx and 5xx
    included, with the code and the whole body. *)
Theorem X8_response_or_first_error
    (url : string) (params : option H) (header : option http.Header) (duration : Z) :
  Forall (fun run : result * M (option Response * option error) =>
            (forall e, run.1 = Err e -> run.2.1 = (None, Some e))
            /\ (forall c req e resp,
                  run.1 = Do c req -> network c req = DoErr e resp ->
                  run.2.1 = (None, Some e))
            /\ (forall c req code l,
                  run.1 = Do c req ->
                  network c req = DoOk {| StatusCode := code; Body_ := chunks l EOF |} ->
                  run.2.1
                  = (Some {| Code := code; Body := foldr String.append "" l |}, None))
            /\ (forall c req code l e,
                  run.1 = Do c req ->
                  network c req
                  = DoOk {| StatusCode := code; Body_ := chunks l (ReadError e) |} ->
                  run.2.1 = (None, Some e))
            /\ ((exists resp, run.2.1 = (Some resp, None))
                \/ (exists e, run.2.1 = (None, Some e))))
    [(Form Sprintf Marshal NewRequest_check url params header duration,
      PostForm network Sprintf Marshal NewRequest_check url params header duration);
     (Json Sprintf Marshal NewRequest_check url params header duration,
      PostJson network Sprintf Marshal NewRequest_check url params header duration);
     (Get Sprintf NewRequest_check url params,
      FastGet network Sprintf NewRequest_check url params)].
Proof.
  repeat (apply List.Forall_cons; [cbn [fst snd]|]); [| | |apply List.Forall_nil];
    rewrite ?PostForm_eq, ?PostJson_eq, ?FastGet_eq; apply read_and_close_result.
Qed.

End ResponseFacts.

(** * More on building and dispatching requests *)

Section DispatchFacts.

Variable Sprintf : string -> string -> string.
Variable Marshal : option H -> string + error.
Variable NewRequest_check : string -> string -> option error.

Lemma count_byte_append c a b :
  count_byte c (a +:+ b) = count_byte c a + count_byte c b.
Proof.
  induction a as [|d a IH]; [reflexivity|].
  rewrite append_cons. simpl. rewrite IH. lia.
Qed.

Lemma count_byte_absent c s : url.ContainsByte c s = false -> count_byte c s = 0.
Proof.
  induction s as [|d s IH]; [reflexivity|]. simpl.
  intros Hs. apply orb_false_iff in Hs as [-> Hs]. now rewrite IH.
Qed.

(** X12: the URL of a GET request is the given URL with [?] and the
    query put at its very end, whatever the URL holds: the query itself
    has no [?] and no [#], so the result has exactly one [?] more than
    the URL given, and a URL that already has a query or a fragment is
    not merged with the new query. *)
Theorem X12_query_is_appended_not_merged (url : string) (params : option H) :
  exists q,
    getRequestURL Sprintf url params = url +:+ "?" +:+ q
    /\ url.ContainsByte "?" q = false
    /\ url.ContainsByte "#" q = false
    /\ count_byte "?" (getRequestURL Sprintf url params) = S (count_byte "?" url)
    /\ count_byte "#" (getRequestURL Sprintf url params) = count_byte "#" url.
Proof.
  exists (queryParams Sprintf (entries params) "").
  pose proof (all_bytes_queryParams Sprintf (entries params) "") as Hall.
  assert (Hq : url.ContainsByte "?" (queryParams Sprintf (entries params) "") = false)
    by now apply (ContainsByte_all_bytes query_byte).
  assert (Hh : url.ContainsByte "#" (queryParams Sprintf (entries params) "") = false)
    by now apply (ContainsByte_all_bytes query_byte).
  split; [reflexivity|]. split; [exact Hq|]. split; [exact Hh|].
  unfold getRequestURL.
  rewrite !count_byte_append, (count_byte_absent _ _ Hq), (count_byte_absent _ _ Hh).
  simpl. lia.
Qed.

(** X9: [Auto] sends a GET or a POST and nothing else.  A method other
    than exactly [GET] (PUT, DELETE, a lower-case [get], the empty
    method) goes out as a POST with the parameters in the body; then a
    content type other than exactly the form type gets the JSON body
    and the JSON [Content-Type], whatever it is. *)
Theorem X9_auto_sends_get_or_post
    (method : MethodType) (contentType : ContentType) (url : string)
    (params : option H) (header : option http.Header) (duration : Z)
    (c : http.Client) (req : http.Request) :
  Auto Sprintf Marshal NewRequest_check method contentType url params header duration
  = Do c req ->
  (method = GetMethod /\ http.Method req = "GET" /\ http.Body req = ""
   /\ http.URL req = getRequestURL Sprintf url params)
  \/ (method <> GetMethod /\ http.Method req = "POST" /\ http.URL req = url
      /\ ((contentType = FormType
           /\ http.Body req = queryParams Sprintf (entries params) ""
           /\ exists h : http.Header,
                http.Header_ req = Some h
                /\ h !! "Content-Type" = Some ["application/x-www-form-urlencoded"])
          \/ (contentType <> FormType
              /\ http.Body req = match Marshal params with inl js => js | inr _ => "" end
              /\ exists h : http.Header,
                   http.Header_ req = Some h
                   /\ h !! "Content-Type" = Some ["application/json;charset=utf-8"]))).
Proof.
  unfold Auto.
  destruct (String.eqb_spec method GetMethod) as [Hm|Hm].
  - intros HGet. left. unfold Get, http_NewRequest in HGet. cbv zeta in HGet.
    destruct (NewRequest_check _ _); [discriminate|].
    injection HGet as _ <-. auto.
  - destruct (String.eqb_spec contentType FormType) as [Hc|Hc]; intros HPost;
      apply (do_post_with_content_type Sprintf Marshal NewRequest_check
               _ _ url params header duration) in HPost
        as (_ & HM & HU & HB & h & Hh & HCT & _);
      right; (split; [exact Hm|]); (split; [exact HM|]); (split; [exact HU|]).
    + left. split; [exact Hc|]. split; [exact HB|]. eauto.
    + right. split; [exact Hc|]. split; [exact HB|]. eauto.
Qed.

(** X10: a request built by [NewRequest] with a method other than
    [GET] and sent by [DoRequest] keeps the URL and carries the header
    map exactly as given (a nil map stays nil, no [Content-Type] is
    added); the content type only chooses the body, the JSON
    serialization for exactly [application/json] and the form encoding
    for any other text.  With the empty method the request goes out as a
    GET with that body. *)
Theorem X10_do_request_sends_header_as_given
    (method : MethodType) (contentType : ContentType) (url : string)
    (params : option H) (header : option http.Header) (timeout : Z)
    (c : http.Client) (req : http.Request) :
  method <> GetMethod ->
  DoRequest Sprintf Marshal NewRequest_check
    (NewRequest Sprintf method contentType url params header timeout)
  = Do c req ->
  http.Header_ req = header
  /\ http.URL req = url
  /\ http.Method req = (if String.eqb method "" then "GET" else method)
  /\ (contentType = JsonType ->
      http.Body req = match Marshal params with inl js => js | inr _ => "" end)
  /\ (contentType <> JsonType ->
      http.Body req = queryParams Sprintf (entries params) "").
Proof.
  intros Hm. unfold NewRequest, DoRequest.
  destruct (String.eqb_spec method GetMethod) as [|_]; [contradiction|].
  cbn [Method ContentType_ Url Params Header Timeout].
  rewrite do_eq. cbv zeta.
  destruct (NewRequest_check _ url); [discriminate|].
  intros [= _ <-]. cbn [http.Header_ http.URL http.Method http.Body].
  repeat (split; [reflexivity|]). unfold getData. split.
  - intros ->. reflexivity.
  - intros Hc. destruct (String.eqb_spec contentType JsonType); [contradiction|reflexivity].
Qed.

End DispatchFacts.

(** * The further properties at concrete inputs *)

Lemma bracket_law_Sprintf_s : bracket_law Sprintf_s.
Proof. intros nk k Hnk. now apply Sprintf_s_brackets. Qed.

Lemma reordered_refl (m : H) : reordered m m.
Proof.
  induction m as [|[k v] m IH]; [constructor|].
  apply reordered_cons; [apply reordered_same | exact IH].
Qed.

(** Three entries in the opposite order. *)
Lemma reordered_reverse3 (e1 e2 e3 : string * value) :
  reordered [e1; e2; e3] [e3; e2; e1].
Proof.
  apply (reordered_trans _ [e2; e1; e3]); [apply reordered_swap|].
  apply (reordered_trans _ [e2; e3; e1]).
  - destruct e2 as [k2 v2]. apply reordered_cons; [apply reordered_same|].
    apply reordered_swap.
  - apply reordered_swap.
Qed.

Example deep_example_flatten :
  flatten Sprintf_s deep_example ""
  = [("user[name]", "Ann Lee"); ("user[tags][0]", "a&b"); ("user[tags][1]", "7");
     ("user[home][city]", "Oslo"); ("50%", "x")]
  /\ paths deep_example = flatten Sprintf_s deep_example "".
Proof. split; reflexivity. Qed.

Lemma X2_output_decodes_witness :
  NoDup (flatten Sprintf_s deep_example "").*1
  /\ url.ParseQuery (queryParams Sprintf_s deep_example "")
     = (list_to_map [("user[name]", ["Ann Lee"]); ("user[tags][0]", ["a&b"]);
                     ("user[tags][1]", ["7"]); ("user[home][city]", ["Oslo"]);
                     ("50%", ["x"])], None).
Proof.
  assert (Hnd : NoDup (flatten Sprintf_s deep_example "").*1)
    by (apply (bool_decide_unpack _); vm_compute; exact I).
  split; [exact Hnd|].
  exact (proj2 (X2_output_decodes_to_the_leaves Sprintf_s deep_example "") Hnd).
Defined.

Lemma X3_bracket_paths_witness :
  bracket_law Sprintf_s
  /\ map_keys_plain deep_example = true
  /\ exists L,
       L ≡ₚ [("user[name]", "Ann Lee"); ("user[tags][0]", "a&b"); ("user[tags][1]", "7");
             ("user[home][city]", "Oslo"); ("50%", "x")]
       /\ url.ParseQuery (queryParams Sprintf_s deep_example "") = (foldl add_pair ∅ L, None).
Proof.
  split; [exact bracket_law_Sprintf_s|]. split; [reflexivity|].
  exact (X3_keys_are_bracket_paths Sprintf_s deep_example bracket_law_Sprintf_s eq_refl).
Defined.

Lemma deep_example_is_reordered : reordered deep_example deep_example_reordered.
Proof.
  unfold deep_example, deep_example_reordered.
  eapply reordered_trans; [|apply reordered_reverse3].
  apply reordered_cons; [|apply reordered_refl].
  apply reordered_map.
  eapply reordered_trans; [|apply reordered_reverse3].
  apply reordered_cons; [apply reordered_same|].
  apply reordered_cons; [|apply reordered_refl].
  apply reordered_map, reordered_swap.
Qed.

Lemma X4_order_witness :
  reordered deep_example deep_example_reordered
  /\ NoDup (flatten Sprintf_s deep_example "").*1
  /\ queryParams Sprintf_s deep_example_reordered "" <> queryParams Sprintf_s deep_example ""
  /\ url.ParseQuery (queryParams Sprintf_s deep_example_reordered "")
     = url.ParseQuery (queryParams Sprintf_s deep_example "").
Proof.
  assert (Hnd : NoDup (flatten Sprintf_s deep_example "").*1)
    by (apply (bool_decide_unpack _); vm_compute; exact I).
  split; [exact deep_example_is_reordered|]. split; [exact Hnd|].
  split; [vm_compute; discriminate|].
  exact (X4_decoded_output_ignores_the_order Sprintf_s deep_example deep_example_reordered ""
           deep_example_is_reordered Hnd).
Defined.

Lemma X7_close_witness :
  EvClose ∈ (PostJson network_broken Sprintf_s Marshal_flat NewRequest_check_plain
               "http://x/y" (Some [("n", VInt Int 3)]) None 0).2
  /\ ~ EvClose ∈ (FastGet network_500 Sprintf_s NewRequest_check_plain
                    "http://down/y" (Some [("k", VString "v")])).2.
Proof.
  pose proof (X7_body_is_read_then_closed network_broken Sprintf_s Marshal_flat
                NewRequest_check_plain "http://x/y" (Some [("n", VInt Int 3)]) None 0) as Hb.
  pose proof (X7_body_is_read_then_closed network_500 Sprintf_s Marshal_flat
                NewRequest_check_plain "http://down/y" (Some [("k", VString "v")]) None 0) as Hd.
  apply Forall_cons_1 in Hb as [_ Hb]. apply Forall_cons_1 in Hb as [(_ & _ & Hclose & _) _].
  apply Forall_cons_1 in Hd as [_ Hd]. apply Forall_cons_1 in Hd as [_ Hd].
  apply Forall_cons_1 in Hd as [(_ & _ & Hclosed & _) _].
  cbn [fst snd] in Hclose, Hclosed. split.
  - apply Hclose. eexists _, _, _. split; vm_compute; reflexivity.
  - intros Hin. apply Hclosed in Hin as (c & req & resp & HGet & Hnet).
    vm_compute in HGet. injection HGet as <- <-. vm_compute in Hnet. discriminate.
Defined.

Lemma X8_result_witness :
  (PostForm network_500 Sprintf_s Marshal_flat NewRequest_check_plain
     "http://x/y" (Some [("k", VString "v")]) None 0).1
  = (Some {| Code := 500; Body := "oops" |}, None)
  /\ (PostJson network_broken Sprintf_s Marshal_flat NewRequest_check_plain
        "http://x/y" (Some [("n", VInt Int 3)]) None 0).1
     = (None, Some (Error "unexpected EOF"))
  /\ (FastGet network_500 Sprintf_s NewRequest_check_plain
        "http://down/y" (Some [("k", VString "v")])).1
     = (None, Some (Error "dial tcp: connection refused")).
Proof.
  pose proof (X8_response_or_first_error network_500 Sprintf_s Marshal_flat
                NewRequest_check_plain "http://x/y" (Some [("k", VString "v")]) None 0) as H5.
  pose proof (X8_response_or_first_error network_broken Sprintf_s Marshal_flat
                NewRequest_check_plain "http://x/y" (Some [("n", VInt Int 3)]) None 0) as Hb.
  pose proof (X8_response_or_first_error network_500 Sprintf_s Marshal_flat
                NewRequest_check_plain "http://down/y" (Some [("k", VString "v")]) None 0) as Hd.
  apply Forall_cons_1 in H5 as [(_ & _ & Hok & _) _].
  apply Forall_cons_1 in Hb as [_ Hb]. apply Forall_cons_1 in Hb as [(_ & _ & _ & Hbroken & _) _].
  apply Forall_cons_1 in Hd as [_ Hd]. apply Forall_cons_1 in Hd as [_ Hd].
  apply Forall_cons_1 in Hd as [(_ & Hdown & _) _].
  cbn [fst snd] in Hok, Hbroken, Hdown. split; [|split].
  - eapply (Hok _ _ 500%Z ["oo"; "ps"]); vm_compute; reflexivity.
  - eapply (Hbroken _ _ 200%Z ["par"]); vm_compute; reflexivity.
  - eapply (Hdown _ _ _ None); vm_compute; reflexivity.
Defined.

Lemma X9_auto_put_witness :
  exists c req,
    Auto Sprintf_s Marshal_flat NewRequest_check_plain "PUT" "text/plain" "http://x/y"
      (Some [("n", VInt Int 3)]) None 0 = Do c req
    /\ http.Method req = "POST"
    /\ http.Body req = json_n3.
Proof.
  eexists _, _. split; [vm_compute; reflexivity|].
  match goal with
  | |- http.Method ?r = _ /\ _ =>
      destruct (X9_auto_sends_get_or_post Sprintf_s Marshal_flat NewRequest_check_plain
                  "PUT" "text/plain" "http://x/y" (Some [("n", VInt Int 3)]) None 0
                  clientPool r ltac:(vm_compute; reflexivity))
        as [(HGet & _) | (_ & HM & _ & [(HForm & _) | (_ & HB & _)])]
  end.
  - discriminate HGet.
  - discriminate HForm.
  - split; [exact HM | exact HB].
Defined.

Lemma X10_do_request_witness :
  "" <> GetMethod
  /\ exists c req,
       DoRequest Sprintf_s Marshal_flat NewRequest_check_plain
         (NewRequest Sprintf_s "" "application/json;charset=utf-8" "http://x/y"
            (Some [("k", VString "v")]) None 0) = Do c req
       /\ http.Header_ req = None
       /\ http.Method req = "GET"
       /\ http.Body req = "k=v".
Proof.
  assert (Hm : "" <> GetMethod) by discriminate.
  split; [exact Hm|]. eexists _, _. split; [vm_compute; reflexivity|].
  match goal with
  | |- http.Header_ ?r = _ /\ _ =>
      destruct (X10_do_request_sends_header_as_given Sprintf_s Marshal_flat
                  NewRequest_check_plain "" "application/json;charset=utf-8" "http://x/y"
                  (Some [("k", VString "v")]) None 0 clientPool r Hm
                  ltac:(vm_compute; reflexivity))
        as (HH & _ & HM & _ & HB)
  end.
  split; [exact HH|]. split; [exact HM|].
  rewrite HB by discriminate. vm_compute. reflexivity.
Defined.
